(** * resolve.py: a recursive DNS resolver built on dnspython

    A shallow embedding of [src/resolve.py] and the properties of its
    referral walk ([lookup_iter]), root driver ([lookup]), result
    collector ([collect_results]) and the caching loop of [main].

    Python exceptions are an explicit result type, the network and the
    cache dictionary are threaded as state, and the unbounded recursion
    between [lookup] and [lookup_iter] is bounded by a call-depth fuel. *)

From Stdlib Require Import Ascii.
From stdpp Require Import gmap strings list fin_maps pretty.

Local Open Scope string_scope.
Local Open Scope Z_scope.

(** ** DNS data as dnspython presents it *)

(** [dns.rdatatype] values used by the program. *)
Module rdatatype.
Definition A : Z := 1.
Definition NS : Z := 2.
Definition CNAME : Z := 5.
Definition SOA : Z := 6.
Definition MX : Z := 15.
Definition AAAA : Z := 28.
End rdatatype.

(** [dns.rcode] values used by the program. *)
Module rcode.
Definition NOERROR : Z := 0.
Definition NXDOMAIN : Z := 3.
End rcode.

(** A [dns.name.Name], held by its presentation form. *)
Record Name := mkName { name_to_text : string }.

(** One resource record's data. The typed constructors carry the
    attributes the program reads; [RD_Generic] is any other rdata,
    given by its type and its text. *)
Inductive Rdata :=
| RD_A (address : string)
| RD_AAAA (address : string)
| RD_CNAME (target : Name)
| RD_NS (target : Name)
| RD_MX (preference : Z) (exchange : Name)
| RD_SOA (text : string)
| RD_Generic (rdtype : Z) (text : string).

Definition rdata_rdtype (rd : Rdata) : Z :=
  match rd with
  | RD_A _ => rdatatype.A
  | RD_AAAA _ => rdatatype.AAAA
  | RD_CNAME _ => rdatatype.CNAME
  | RD_NS _ => rdatatype.NS
  | RD_MX _ _ => rdatatype.MX
  | RD_SOA _ => rdatatype.SOA
  | RD_Generic t _ => t
  end.

(** [str(rdata)] *)
Definition rdata_str (rd : Rdata) : string :=
  match rd with
  | RD_A a => a
  | RD_AAAA a => a
  | RD_CNAME t => name_to_text t
  | RD_NS t => name_to_text t
  | RD_MX p e => pretty p ++ " " ++ name_to_text e
  | RD_SOA t => t
  | RD_Generic _ t => t
  end.

(** An RRset: owner name, type, and its records in order. *)
Record RRset := mkRRset {
  rr_name : Name;
  rr_rdtype : Z;
  rr_items : list Rdata
}.

(** A [dns.message.Message]: the status code and the three sections. *)
Record Message := mkMessage {
  msg_rcode : Z;
  answer : list RRset;
  authority : list RRset;
  additional : list RRset
}.

(** [dns.message.Message()] *)
Definition empty_message : Message := mkMessage rcode.NOERROR [] [] [].

(** The question of an outbound query (class IN throughout). *)
Record Query := mkQuery { q_name : Name; q_rdtype : Z }.

(** One call of [dns.query.udp]: the query and the server it went to. *)
Record Sent := mkSent { s_query : Query; s_where : string }.

(** What [dns.query.udp] does with a query: a parsed message, a
    [Timeout], or another [DNSException]. *)
Inductive Outcome :=
| Received (m : Message)
| TimedOut
| Malformed.

(** ** Python values stored in the Record Map *)

Inductive PyVal :=
| VRdata (rd : Rdata)
| VName (n : Name)
| VStr (s : string)
| VInt (z : Z).

(** A record dictionary such as [{"name": ..., "address": ...}]. *)
Abbreviation Entry := (gmap string PyVal).
(** The Record Map: record type name to the list of its entries. *)
Abbreviation RecordMap := (gmap string (list Entry)).

(** ** Exceptions, state and the monad *)

Inductive exn :=
| Timeout
| DNSException
| AttributeError
| IndexError
| UnboundLocalError.

Inductive Result (T : Type) :=
| Ok (v : T)
| Raise (e : exn)
| OutOfFuel.
Arguments Ok {T} v.
Arguments Raise {T} e.
Arguments OutOfFuel {T}.

(** The mutable world: the [my_dictionary] object shared by [main] and
    [collect_results] (its mapping and the two attributes written on
    it), and the queries sent so far. *)
Record World := mkWorld {
  cache : gmap string RecordMap;
  dc_key : option string;
  dc_value : option RecordMap;
  sent : list Sent
}.

Definition M (T : Type) : Type := World -> Result T * World.

Definition ret {T} (v : T) : M T := fun w => (Ok v, w).
Definition raise {T} (e : exn) : M T := fun w => (Raise e, w).
Definition out_of_fuel {T} : M T := fun w => (OutOfFuel, w).
Definition bind {T U} (m : M T) (k : T -> M U) : M U :=
  fun w => match m w with
           | (Ok v, w') => k v w'
           | (Raise e, w') => (Raise e, w')
           | (OutOfFuel, w') => (OutOfFuel, w')
           end.

Notation "x <- m ;; k" := (bind m (fun x => k))
  (at level 20, m at level 99, k at level 200, only parsing).
Notation "' p <- m ;; k" := (bind m (fun x => let 'p := x in k))
  (at level 20, p pattern, m at level 99, k at level 200, only parsing).

(** Python truthiness of a list. *)
Definition truthy {T} (l : list T) : bool :=
  match l with [] => false | _ => true end.

(** [l[0]] *)
Definition index0 {T} (l : list T) : M T :=
  match l with
  | [] => raise IndexError
  | x :: _ => ret x
  end.

(** A name argument as Python passes it around: [lookup] receives a
    [dns.name.Name] from [collect_results] and from its own CNAME
    restart, and a plain [str] from the authority path of
    [lookup_iter]. *)
Inductive Target :=
| TName (n : Name)
| TStr (s : string).

(** current as of 19 October 2020 *)
Definition ROOT_SERVERS : list string :=
  [ "198.41.0.4"; "199.9.14.201"; "192.33.4.12"; "199.7.91.13";
    "192.203.230.10"; "192.5.5.241"; "192.112.36.4"; "198.97.190.53";
    "192.36.148.17"; "192.58.128.30"; "193.0.14.129"; "199.7.83.42";
    "202.12.27.33" ].

Definition log_sent (s : Sent) (w : World) : World :=
  mkWorld (cache w) (dc_key w) (dc_value w) (sent w ++ [s]).

(** [try: body except Timeout: h1 except DNSException: h2] *)
Definition try_except {T} (body h_timeout h_dnsexception : M T) : M T :=
  fun w => match body w with
           | (Raise Timeout, w') => h_timeout w'
           | (Raise DNSException, w') => h_dnsexception w'
           | r => r
           end.

(** The value bound to [response] after the status check of
    [lookup_iter]: the message, or the integer [dns.rcode.NXDOMAIN]. *)
Inductive PyResponse :=
| PyMessage (m : Message)
| PyInt (z : Z).

Section Resolver.

(** dnspython, taken as given: [dns.name.from_text], and the network
    behind [dns.query.udp], whose reply may depend on everything sent
    before. *)
Variable from_text : string -> Name.
Variable udp : list Sent -> Query -> string -> Outcome.

(** [dns.message.make_query(target_name, qtype)]: a [str] name is
    converted with [from_text]. *)
Definition make_query (target_name : Target) (qtype : Z) : Query :=
  match target_name with
  | TName n => mkQuery n qtype
  | TStr s => mkQuery (from_text s) qtype
  end.

(** [dns.query.udp(outbound_query, server, 3)] *)
Definition query_udp (q : Query) (server : string) : M Message :=
  fun w =>
    let w' := log_sent (mkSent q server) w in
    match udp (sent w) q server with
    | Received m => (Ok m, w')
    | TimedOut => (Raise Timeout, w')
    | Malformed => (Raise DNSException, w')
    end.

Section Loops.

(** [lookup_iter(target_name, qtype, _, _, dc)] and
    [lookup(_, _, dc)] as seen from inside one call. *)
Variable walk : string -> bool -> M (Message * bool).
Variable sub_lookup : Target -> Z -> M Message.

(** [for addx in add: ...] of the additional section. *)
Fixpoint glue_rdatas (add : list Rdata) (response : Message)
    (found : bool) : M (Message * bool) :=
  match add with
  | [] => ret (response, found)
  | addx :: rest =>
      '(response, found) <-
        (if rdata_rdtype addx =? rdatatype.A
         then walk (rdata_str addx) found
         else ret (response, found)) ;;
      if found then ret (response, found)
      else glue_rdatas rest response found
  end.

(** [for add in response.additional: ...] *)
Fixpoint glue_rrsets (adds : list RRset) (response : Message)
    (found : bool) : M (Message * bool) :=
  match adds with
  | [] => ret (response, found)
  | add :: rest =>
      '(response, found) <- glue_rdatas (rr_items add) response found ;;
      if found then ret (response, found)
      else glue_rrsets rest response found
  end.

(** [for authx in auth: ...] of the authority section. The NS arm
    has no break of its own; the SOA arm sets [found] and breaks. *)
Fixpoint auth_rdatas (auth : list Rdata) (response : Message)
    (found : bool) : M (Message * bool) :=
  match auth with
  | [] => ret (response, found)
  | authx :: rest =>
      if rdata_rdtype authx =? rdatatype.NS then
        ns_response <- sub_lookup (TStr (rdata_str authx)) rdatatype.A ;;
        ns_set <- index0 (answer ns_response) ;;
        ns_rd <- index0 (rr_items ns_set) ;;
        let ns_addr := rdata_str ns_rd in
        '(response, found) <- walk ns_addr found ;;
        auth_rdatas rest response found
      else if rdata_rdtype authx =? rdatatype.SOA then
        ret (response, true)
      else auth_rdatas rest response found
  end.

(** [for auth in response.authority: ...] *)
Fixpoint auth_rrsets (auths : list RRset) (response : Message)
    (found : bool) : M (Message * bool) :=
  match auths with
  | [] => ret (response, found)
  | auth :: rest =>
      '(response, found) <- auth_rdatas (rr_items auth) response found ;;
      if found then ret (response, found)
      else auth_rrsets rest response found
  end.

(** The body of [lookup_iter]. *)
Definition lookup_iter_body (target_name : Target) (qtype : Z)
    (server : string) (found : bool) : M (Message * bool) :=
  let outbound_query := make_query target_name qtype in
  try_except
    (m <- query_udp outbound_query server ;;
     let response :=
       if negb (msg_rcode m =? rcode.NOERROR)
       then PyInt rcode.NXDOMAIN else PyMessage m in
     match response with
     | PyInt _ => raise AttributeError
     | PyMessage response =>
         if truthy (answer response) then
           ret (response, true)
         else if truthy (additional response) then
           glue_rrsets (additional response) response found
         else if truthy (authority response) && negb found then
           auth_rrsets (authority response) response found
         else ret (response, found)
     end)
    (ret (empty_message, false))
    (ret (empty_message, false)).

(** [for server in ROOT_SERVERS: ...] of [lookup], with [walk] the
    walker for the current [target_name] and [restart] the driver
    itself. [response] is unbound until the first iteration. *)
Fixpoint lookup_servers (restart : Target -> Z -> M Message) (qtype : Z)
    (servers : list string) (response : option Message) (found : bool)
    : M Message :=
  match servers with
  | [] =>
      match response with
      | Some r => ret r
      | None => raise UnboundLocalError
      end
  | server :: rest =>
      '(response, found) <- walk server found ;;
      match answer response with
      | top :: _ =>
          let cname := rdatatype.CNAME in
          let top_resp := rr_rdtype top in
          if (top_resp =? cname) && negb (qtype =? cname) then
            first_rd <- index0 (rr_items top) ;;
            let first_resp := rdata_str first_rd in
            let target_name := TName (from_text first_resp) in
            restart target_name qtype
          else ret response
      | [] =>
          match authority response with
          | auth0 :: _ =>
              if rr_rdtype auth0 =? rdatatype.SOA then ret response
              else lookup_servers restart qtype rest (Some response) found
          | [] => lookup_servers restart qtype rest (Some response) found
          end
      end
  end.

End Loops.

(** [lookup_iter] and [lookup]; each call spends one unit of fuel. *)
Fixpoint lookup_iter (fuel : nat) (target_name : Target) (qtype : Z)
    (server : string) (found : bool) {struct fuel} : M (Message * bool) :=
  match fuel with
  | O => out_of_fuel
  | S n =>
      lookup_iter_body (lookup_iter n target_name qtype) (lookup n)
        target_name qtype server found
  end
with lookup (fuel : nat) (target_name : Target) (qtype : Z)
    {struct fuel} : M Message :=
  match fuel with
  | O => out_of_fuel
  | S n =>
      lookup_servers (lookup_iter n target_name qtype) (lookup n)
        qtype ROOT_SERVERS None false
  end.

(** ** The result collector and the cache *)

(** [answer.preference] and [answer.exchange]: attributes of MX
    rdata only. *)
Definition get_preference (rd : Rdata) : M Z :=
  match rd with
  | RD_MX p _ => ret p
  | _ => raise AttributeError
  end.

Definition get_exchange (rd : Rdata) : M Name :=
  match rd with
  | RD_MX _ e => ret e
  | _ => raise AttributeError
  end.

(** [{"name": answer, "alias": name}] *)
Definition cname_entry (answer : Rdata) (name : string) : Entry :=
  <["alias" := VStr name]> (<["name" := VRdata answer]> ∅).

(** [{"name": a_name, "address": str(answer)}] *)
Definition address_entry (a_name : Name) (answer : Rdata) : Entry :=
  <["address" := VStr (rdata_str answer)]> (<["name" := VName a_name]> ∅).

(** [{"name": mx_name, "preference": ..., "exchange": ...}] *)
Definition mx_entry (mx_name : Name) (preference : Z) (exchange : Name)
    : Entry :=
  <["exchange" := VStr (name_to_text exchange)]>
    (<["preference" := VInt preference]> (<["name" := VName mx_name]> ∅)).

(** The CNAME loop: every record of every answer RRset is appended. *)
Definition collect_cnames (name : string) (answers : list RRset)
    : list Entry :=
  flat_map (fun rs => map (fun rd => cname_entry rd name) (rr_items rs))
           answers.

(** The A and AAAA loops: records of type [t] are appended. *)
Definition collect_addresses (t : Z) (answers : list RRset) : list Entry :=
  flat_map (fun rs =>
              let a_name := rr_name rs in
              flat_map (fun rd => if rdata_rdtype rd =? t
                                  then [address_entry a_name rd] else [])
                       (rr_items rs))
           answers.

(** The MX loop over one RRset, appending to [mxrecords]. *)
Fixpoint collect_mx_rdatas (mx_name : Name) (items : list Rdata)
    (mxrecords : list Entry) : M (list Entry) :=
  match items with
  | [] => ret mxrecords
  | answer :: rest =>
      if rdata_rdtype answer =? 15 then
        preference <- get_preference answer ;;
        exchange <- get_exchange answer ;;
        collect_mx_rdatas mx_name rest
          (mxrecords ++ [mx_entry mx_name preference exchange])
      else collect_mx_rdatas mx_name rest mxrecords
  end.

Fixpoint collect_mx (answers : list RRset) (mxrecords : list Entry)
    : M (list Entry) :=
  match answers with
  | [] => ret mxrecords
  | rs :: rest =>
      mxrecords <- collect_mx_rdatas (rr_name rs) (rr_items rs) mxrecords ;;
      collect_mx rest mxrecords
  end.

(** [domaincache.key = name; domaincache.value = full_response;
    domaincache.add(domaincache.key, domaincache.value)] *)
Definition cache_add (name : string) (full_response : RecordMap) : M unit :=
  fun w => (Ok tt, mkWorld (<[name := full_response]> (cache w))
                           (Some name) (Some full_response) (sent w)).

Definition collect_results (fuel : nat) (name : string) : M RecordMap :=
  let full_response : RecordMap := ∅ in
  let target_name := TName (from_text name) in
  response <- lookup fuel target_name rdatatype.CNAME ;;
  let cnames := collect_cnames name (answer response) in
  response <- lookup fuel target_name rdatatype.A ;;
  let arecords := collect_addresses 1 (answer response) in
  response <- lookup fuel target_name rdatatype.AAAA ;;
  let aaaarecords := collect_addresses 28 (answer response) in
  response <- lookup fuel target_name rdatatype.MX ;;
  mxrecords <- collect_mx (answer response) [] ;;
  let full_response := <["CNAME" := cnames]> full_response in
  let full_response := <["A" := arecords]> full_response in
  let full_response := <["AAAA" := aaaarecords]> full_response in
  let full_response := <["MX" := mxrecords]> full_response in
  _ <- cache_add name full_response ;;
  ret full_response.

(** Truthiness of a dictionary. *)
Definition dict_truthy {V} (d : gmap string V) : bool :=
  negb (Nat.eqb (size d) 0).

(** One iteration of the loop of [main]; the value is the Record Map
    handed to [print_results]. *)
Definition main_step (fuel : nat) (a_domain_name : string) : M RecordMap :=
  fun w =>
    match cache w !! a_domain_name with
    | Some c =>
        if dict_truthy c then (Ok c, w)
        else collect_results fuel a_domain_name w
    | None => collect_results fuel a_domain_name w
    end.

(** [for a_domain_name in program_args.name: ...] *)
Fixpoint main_loop (fuel : nat) (names : list string)
    : M (list RecordMap) :=
  match names with
  | [] => ret []
  | a_domain_name :: rest =>
      printed <- main_step fuel a_domain_name ;;
      others <- main_loop fuel rest ;;
      ret (printed :: others)
  end.

(** [dict_obj = my_dictionary()] and nothing sent yet. *)
Definition initial_world : World := mkWorld ∅ None None [].

End Resolver.

Arguments lookup_iter : simpl never.
Arguments lookup : simpl never.

(** ** Printing the results *)

Definition FORMATS : list (string * string) :=
  [ ("CNAME", "{alias} is an alias for {name}");
    ("A", "{name} has address {address}");
    ("AAAA", "{name} has IPv6 address {address}");
    ("MX", "{name} mail is handled by {preference} {exchange}") ].

(** [str(value)] for the values held in an entry. *)
Definition pyval_str (v : PyVal) : string :=
  match v with
  | VRdata rd => rdata_str rd
  | VName n => name_to_text n
  | VStr s => s
  | VInt z => pretty z
  end.

(** What [str.format] raises. [Unsupported] marks a template outside the
    fragment modelled here: a replacement field that is not a plain
    keyword name (empty, positional, or with a conversion, a format
    specification, an attribute or an index). *)
Inductive FormatError :=
| KeyError (key : string)
| ValueError
| Unsupported.

Inductive Formatted :=
| Text (s : string)
| FormatRaise (e : FormatError).

Definition is_digit (c : Ascii.ascii) : bool :=
  (48 <=? Ascii.nat_of_ascii c)%nat && (Ascii.nat_of_ascii c <=? 57)%nat.

Definition special_in_field (c : Ascii.ascii) : bool :=
  Ascii.eqb c "!"%char || Ascii.eqb c ":"%char || Ascii.eqb c "."%char
  || Ascii.eqb c "["%char
  || Ascii.eqb c "{"%char.

Definition plain_field (field : string) : bool :=
  match field with
  | EmptyString => false
  | String c _ => negb (is_digit c)
  end.

Definition prepend (c : Ascii.ascii) (r : Formatted) : Formatted :=
  match r with
  | Text s => Text (String c s)
  | FormatRaise e => FormatRaise e
  end.

Definition prepend_str (t : string) (r : Formatted) : Formatted :=
  match r with
  | Text s => Text (t ++ s)
  | FormatRaise e => FormatRaise e
  end.

(** [fmt.format] with the entry [kwargs] as keyword arguments, scanning
    [fmt] from the left. [field] is
    [None] in literal text and [Some name] inside a replacement field
    whose name has been read up to [name]. *)
Fixpoint str_format (fmt : string) (field : option string) (kwargs : Entry)
    : Formatted :=
  match fmt with
  | EmptyString =>
      match field with
      | None => Text ""
      | Some _ => FormatRaise ValueError
      end
  | String c rest =>
      match field with
      | None =>
          if Ascii.eqb c "{"%char then
            match rest with
            | String "{"%char rest' =>
                prepend "{"%char (str_format rest' None kwargs)
            | _ => str_format rest (Some "") kwargs
            end
          else if Ascii.eqb c "}"%char then
            match rest with
            | String "}"%char rest' =>
                prepend "}"%char (str_format rest' None kwargs)
            | _ => FormatRaise ValueError
            end
          else prepend c (str_format rest None kwargs)
      | Some name =>
          if Ascii.eqb c "}"%char then
            if plain_field name then
              match kwargs !! name with
              | Some v =>
                  prepend_str (pyval_str v) (str_format rest None kwargs)
              | None => FormatRaise (KeyError name)
              end
            else FormatRaise Unsupported
          else if special_in_field c then FormatRaise Unsupported
          else str_format rest (Some (name ++ String c "")) kwargs
      end
  end.

(** [for result in results.get(rtype, []): print(...)], each line being
    [fmt_str] formatted with the entry as keyword arguments. The printed
    lines are appended to [out]; the second component is the exception
    that ended the loop, if any. *)
Fixpoint print_entries (fmt_str : string) (results : list Entry)
    (out : list string) : list string * option FormatError :=
  match results with
  | [] => (out, None)
  | result :: rest =>
      match str_format fmt_str None result with
      | Text line => print_entries fmt_str rest (out ++ [line])
      | FormatRaise e => (out, Some e)
      end
  end.

(** [for rtype, fmt_str in FORMATS: ...] *)
Fixpoint print_formats (formats : list (string * string))
    (results : RecordMap) (out : list string)
    : list string * option FormatError :=
  match formats with
  | [] => (out, None)
  | (rtype, fmt_str) :: rest =>
      match print_entries fmt_str (default [] (results !! rtype)) out with
      | (out, None) => print_formats rest results out
      | (out, Some e) => (out, Some e)
      end
  end.

(** [print_results(results)]: the lines printed, and the exception that
    stopped the printing, if any. *)
Definition print_results (results : RecordMap)
    : list string * option FormatError :=
  print_formats FORMATS results [].

(** ** Concrete networks

    Small worlds on which the resolver is run: name conversion on plain
    ASCII names, and a handful of servers. *)

(** [dns.name.from_text] on plain names: the name is made absolute. *)
Definition absolute (s : string) : Name :=
  let n := String.length s in
  if String.eqb (String.substring (Nat.pred n) 1 s) "." then mkName s
  else mkName (s ++ ".").

Definition asks (q : Query) (name : string) : bool :=
  String.eqb (name_to_text (q_name q)) name.

Definition root0 : string := "198.41.0.4".
Definition root1 : string := "199.9.14.201".

Definition a_rrset (owner address : string) : RRset :=
  mkRRset (mkName owner) rdatatype.A [RD_A address].

Definition soa_rrset (zone : string) : RRset :=
  mkRRset (mkName zone) rdatatype.SOA
    [RD_SOA "ns.example. admin.example. 1 7200 900 1209600 86400"].

(** No server ever replies. *)
Definition net_silent : list Sent -> Query -> string -> Outcome :=
  fun _ _ _ => TimedOut.

(** Every server reports SERVFAIL. *)
Definition net_servfail : list Sent -> Query -> string -> Outcome :=
  fun _ _ _ => Received (mkMessage 2 [] [] []).

(** Every server answers every question about any name with the same
    three records. *)
Definition net_direct : list Sent -> Query -> string -> Outcome :=
  fun _ q _ =>
    let owner := q_name q in
    Received (mkMessage 0
      [ mkRRset owner rdatatype.A [RD_A "192.0.2.1"];
        mkRRset owner rdatatype.AAAA [RD_AAAA "2001:db8::1"];
        mkRRset owner rdatatype.MX [RD_MX 10 (mkName "mail.example.")] ]
      [] []).

(** [www.example.] is delegated to [ns1.example.] without glue, and
    nobody knows the address of [ns1.example.]. *)
Definition net_lame : list Sent -> Query -> string -> Outcome :=
  fun _ q _ =>
    if asks q "www.example." then
      Received (mkMessage 0 []
        [mkRRset (mkName "example.") rdatatype.NS
           [RD_NS (mkName "ns1.example.")]] [])
    else TimedOut.

(** [www.example.] is an alias of [web.example.], which has an address. *)
Definition alias_rrset : RRset :=
  mkRRset (mkName "www.example.") rdatatype.CNAME
    [RD_CNAME (mkName "web.example.")].

Definition net_alias : list Sent -> Query -> string -> Outcome :=
  fun _ q _ =>
    if asks q "www.example." then
      Received (mkMessage 0 [alias_rrset] [] [])
    else if asks q "web.example." then
      Received (mkMessage 0 [a_rrset "web.example." "192.0.2.10"] [] [])
    else TimedOut.

(** The first root server is down, the second one states that the name
    has no data, the others would answer. *)
Definition net_nodata : list Sent -> Query -> string -> Outcome :=
  fun _ q server =>
    if String.eqb server root0 then TimedOut
    else if String.eqb server root1 then
      Received (mkMessage 0 [] [soa_rrset "example."] [])
    else Received (mkMessage 0 [a_rrset "www.example." "192.0.2.99"] [] []).

(** A referral to two nameservers. *)
Definition two_ns_rrset : RRset :=
  mkRRset (mkName "example.") rdatatype.NS
    [RD_NS (mkName "ns1.example."); RD_NS (mkName "ns2.example.")].

(** The root refers [www.example.] to two nameservers in one NS RRset,
    without glue. The first nameserver answers; the second is down. *)
Definition net_two_ns : list Sent -> Query -> string -> Outcome :=
  fun _ q server =>
    if String.eqb server root0 then
      if asks q "www.example." then
        Received (mkMessage 0 [] [two_ns_rrset] [])
      else if asks q "ns1.example." then
        Received (mkMessage 0 [a_rrset "ns1.example." "192.0.2.1"] [] [])
      else if asks q "ns2.example." then
        Received (mkMessage 0 [a_rrset "ns2.example." "192.0.2.2"] [] [])
      else TimedOut
    else if String.eqb server "192.0.2.1" then
      if asks q "www.example." then
        Received (mkMessage 0 [a_rrset "www.example." "192.0.2.80"] [] [])
      else TimedOut
    else TimedOut.

(** The root refers [www.example.] to [ns1.example.]; [glue] is the
    additional section of that referral. *)
Definition net_referral (glue : list RRset)
    : list Sent -> Query -> string -> Outcome :=
  fun _ q server =>
    if String.eqb server root0 then
      if asks q "www.example." then
        Received (mkMessage 0 []
          [mkRRset (mkName "example.") rdatatype.NS
             [RD_NS (mkName "ns1.example.")]]
          glue)
      else if asks q "ns1.example." then
        Received (mkMessage 0 [a_rrset "ns1.example." "192.0.2.1"] [] [])
      else TimedOut
    else if String.eqb server "192.0.2.1" then
      if asks q "www.example." then
        Received (mkMessage 0 [a_rrset "www.example." "192.0.2.80"] [] [])
      else TimedOut
    else TimedOut.

(** IPv6-only glue for [ns1.example.]. *)
Definition glue_aaaa : list RRset :=
  [mkRRset (mkName "ns1.example.") rdatatype.AAAA [RD_AAAA "2001:db8::53"]].

Definition www : Target := TName (mkName "www.example.").

(** Every server states that the name has no data of the type asked. *)
Definition net_soa : list Sent -> Query -> string -> Outcome :=
  fun _ _ _ => Received (mkMessage 0 [] [soa_rrset "example."] []).


(** The world after the question [(name, qtype)] went to each of
    [servers] in turn. *)
Definition asked_all (name : string) (qtype : Z) (servers : list string)
    (w : World) : World :=
  foldl (fun w server =>
           log_sent (mkSent (mkQuery (mkName name) qtype) server) w)
        w servers.

(** The Record Map of [example.com] on [net_direct]. *)
Definition example_com_records : RecordMap :=
  let owner := mkName "example.com." in
  <["MX" := [mx_entry owner 10 (mkName "mail.example.")]]>
  (<["AAAA" := [address_entry owner (RD_AAAA "2001:db8::1")]]>
  (<["A" := [address_entry owner (RD_A "192.0.2.1")]]>
  (<["CNAME" := [ cname_entry (RD_A "192.0.2.1") "example.com";
                  cname_entry (RD_AAAA "2001:db8::1") "example.com";
                  cname_entry (RD_MX 10 (mkName "mail.example."))
                    "example.com" ]]> ∅))).

(** The world after the collector ran for [example.com] on
    [net_direct]: one query per record type, all to the first root
    server. *)
Definition example_com_world : World :=
  let ask t := mkSent (mkQuery (mkName "example.com.") t) root0 in
  mkWorld (<["example.com" := example_com_records]> ∅)
          (Some "example.com") (Some example_com_records)
          [ask rdatatype.CNAME; ask rdatatype.A; ask rdatatype.AAAA;
           ask rdatatype.MX].

(** * Specification vocabulary *)

(** ** Trace extension

    [extends P w w']: [w'] is [w] with further queries sent, each
    satisfying [P], and the cache object untouched. *)
Definition extends (P : Sent -> Prop) (w w' : World) : Prop :=
  exists new, w' = mkWorld (cache w) (dc_key w) (dc_value w) (sent w ++ new)
              /\ Forall P new.

(** A computation that only sends queries satisfying [P]. *)
Definition sends_only {T} (P : Sent -> Prop) (m : M T) : Prop :=
  forall w, extends P w (snd (m w)).

(** ** Fuel

    [m'] agrees with [m] wherever [m] did not run out of fuel. *)
Definition agrees {T} (m m' : M T) : Prop :=
  forall w, fst (m w) <> OutOfFuel -> m' w = m w.

(** What a walk for [(target_name, qtype)] may send: its own question,
    or a question of type A. *)
Definition own_or_A (from_text : string -> Name) (target_name : Target)
    (qtype : Z) (s : Sent) : Prop :=
  s_query s = make_query from_text target_name qtype
  \/ q_rdtype (s_query s) = rdatatype.A.

(** What a lookup for type [qtype] may send. *)
Definition qtype_or_A (qtype : Z) (s : Sent) : Prop :=
  q_rdtype (s_query s) = qtype \/ q_rdtype (s_query s) = rdatatype.A.

(** [Skips walk servers st st']: the root loop of [lookup], started in
    [st] (the last response if any, the found flag, the world), walks
    every server of [servers] and none of them settles the lookup: each
    response has an empty answer section and no SOA at the head of its
    authority section. [st'] is the state after the last of them. *)
Inductive Skips (walk : string -> bool -> M (Message * bool))
  : list string -> option Message * bool * World
    -> option Message * bool * World -> Prop :=
| Skips_nil st : Skips walk [] st st
| Skips_cons server rest last found w r found' w' st' :
    walk server found w = (Ok (r, found'), w') ->
    answer r = [] ->
    (forall auth0 tl, authority r = auth0 :: tl ->
                      rr_rdtype auth0 <> rdatatype.SOA) ->
    Skips walk rest (Some r, found', w') st' ->
    Skips walk (server :: rest) (last, found, w) st'.

(** An RRset with only its records of type A kept. *)
Definition only_A (rs : RRset) : RRset :=
  mkRRset (rr_name rs) (rr_rdtype rs)
    (List.filter (fun rd => rdata_rdtype rd =? rdatatype.A) (rr_items rs)).

(** No record of the section is of type A. *)
Definition no_A_record (section : list RRset) : Prop :=
  Forall (fun rs => Forall (fun rd => rdata_rdtype rd <> rdatatype.A)
                      (rr_items rs)) section.

(** The fields of the entries of the Record Map. *)
Definition cname_shape (name : string) (e : Entry) : Prop :=
  dom e = ({["name"; "alias"]} : gset string)
  /\ (exists rd, e !! "name" = Some (VRdata rd))
  /\ e !! "alias" = Some (VStr name).

Definition address_shape (e : Entry) : Prop :=
  dom e = ({["name"; "address"]} : gset string)
  /\ (exists n, e !! "name" = Some (VName n))
  /\ (exists a, e !! "address" = Some (VStr a)).

Definition mx_shape (e : Entry) : Prop :=
  dom e = ({["name"; "preference"; "exchange"]} : gset string)
  /\ (exists n, e !! "name" = Some (VName n))
  /\ (exists p, e !! "preference" = Some (VInt p))
  /\ (exists x, e !! "exchange" = Some (VStr x)).

(** The world [w] with the cache object of [d] in place of its own. *)
Definition recache (d w : World) : World :=
  mkWorld (cache d) (dc_key d) (dc_value d) (sent w).

(** A computation that neither reads nor writes the cache object: run
    with another cache, it gives the same value and sends the same
    queries, and leaves that other cache as it was. *)
Definition cache_blind {T} (m : M T) : Prop :=
  forall d w, m (recache d w) = (fst (m w), recache d (snd (m w))).




(** The MX entries of an answer section, in order. *)
Definition mx_entries (answers : list RRset) : list Entry :=
  flat_map (fun rs =>
              flat_map (fun rd => match rd with
                                  | RD_MX p e => [mx_entry (rr_name rs) p e]
                                  | _ => []
                                  end)
                       (rr_items rs))
           answers.

(** Every record whose type is MX is MX rdata, as in a parsed message. *)
Definition typed_mx (answers : list RRset) : Prop :=
  Forall (fun rs => Forall (fun rd => rdata_rdtype rd = rdatatype.MX ->
                                      exists p e, rd = RD_MX p e)
                           (rr_items rs))
         answers.

(** A format string seen as literal text and replacement fields. *)
Inductive Segment :=
| Lit (text : string)
| Field (name : string).

(** The format string of a list of segments. *)
Fixpoint template (segs : list Segment) : string :=
  match segs with
  | [] => ""
  | Lit text :: rest => text ++ template rest
  | Field name :: rest => "{" ++ name ++ "}" ++ template rest
  end.

(** What formatting the segments with the entry [kwargs] should give:
    each field replaced by the text of its value, [KeyError] at the
    first field the entry lacks. *)
Fixpoint render (segs : list Segment) (kwargs : Entry) : Formatted :=
  match segs with
  | [] => Text ""
  | Lit text :: rest => prepend_str text (render rest kwargs)
  | Field name :: rest =>
      match kwargs !! name with
      | Some v => prepend_str (pyval_str v) (render rest kwargs)
      | None => FormatRaise (KeyError name)
      end
  end.

Fixpoint all_chars (p : Ascii.ascii -> bool) (s : string) : bool :=
  match s with
  | EmptyString => true
  | String c rest => p c && all_chars p rest
  end.

Definition literal_char (c : Ascii.ascii) : bool :=
  negb (Ascii.eqb c "{"%char) && negb (Ascii.eqb c "}"%char).

Definition field_char (c : Ascii.ascii) : bool :=
  negb (Ascii.eqb c "}"%char) && negb (special_in_field c).

(** Literal text without braces; a field that is a plain keyword name. *)
Definition plain_segment (seg : Segment) : bool :=
  match seg with
  | Lit text => all_chars literal_char text
  | Field name => plain_field name && all_chars field_char name
  end.

(** The text of the field [key] of an entry. *)
Definition field (e : Entry) (key : string) : string :=
  match e !! key with
  | Some v => pyval_str v
  | None => ""
  end.

(** The line printed for an entry of each list. *)
Definition cname_line (e : Entry) : string :=
  field e "alias" ++ " is an alias for " ++ field e "name".

Definition a_line (e : Entry) : string :=
  field e "name" ++ " has address " ++ field e "address".

Definition aaaa_line (e : Entry) : string :=
  field e "name" ++ " has IPv6 address " ++ field e "address".

Definition mx_line (e : Entry) : string :=
  field e "name" ++ " mail is handled by " ++ field e "preference" ++ " "
  ++ field e "exchange".

(** The entry has every field of [keys]. *)
Definition has_fields (keys : list string) (e : Entry) : Prop :=
  Forall (fun key => is_Some (e !! key)) keys.

(** The list bound to [rtype], or the empty list: [results.get(rtype, [])]. *)
Definition records_of (results : RecordMap) (rtype : string) : list Entry :=
  default [] (results !! rtype).

(** Every entry of the four lists has the fields its line needs. *)
Definition printable (results : RecordMap) : Prop :=
  Forall (has_fields ["alias"; "name"]) (records_of results "CNAME")
  /\ Forall (has_fields ["name"; "address"]) (records_of results "A")
  /\ Forall (has_fields ["name"; "address"]) (records_of results "AAAA")
  /\ Forall (has_fields ["name"; "preference"; "exchange"])
            (records_of results "MX").

(** The lines of a printable Record Map. *)
Definition lines_of (results : RecordMap) : list string :=
  (map cname_line (records_of results "CNAME")
   ++ map a_line (records_of results "A")
   ++ map aaaa_line (records_of results "AAAA")
   ++ map mx_line (records_of results "MX"))%list.

(** Every Record Map stored in the cache is non-empty and printable. *)
Definition cache_printable (w : World) : Prop :=
  forall k (rm : RecordMap),
    cache w !! k = Some rm -> dict_truthy rm = true /\ printable rm.

(** Every entry stored in the cache is a non-empty dictionary. *)
Definition cache_wf (w : World) : Prop :=
  forall k (rm : RecordMap), cache w !! k = Some rm -> dict_truthy rm = true.

(** * Properties *)


Lemma extends_refl P w : extends P w w.
Proof.
  exists []. split; [| constructor].
  destruct w; simpl. by rewrite app_nil_r.
Qed.

Lemma extends_trans P w1 w2 w3 :
  extends P w1 w2 -> extends P w2 w3 -> extends P w1 w3.
Proof.
  intros (n1 & -> & H1) (n2 & -> & H2). simpl.
  exists (n1 ++ n2)%list. split.
  - by rewrite app_assoc.
  - by apply Forall_app.
Qed.

Lemma extends_weaken (P Q : Sent -> Prop) w w' :
  (forall s, P s -> Q s) -> extends P w w' -> extends Q w w'.
Proof.
  intros HPQ (new & -> & H). exists new. split; [done |].
  eapply Forall_impl; eauto.
Qed.

Lemma extends_log_sent (P : Sent -> Prop) s w :
  P s -> extends P w (log_sent s w).
Proof. intros H. exists [s]. split; [done | by repeat constructor]. Qed.

Lemma sends_only_weaken {T} (P Q : Sent -> Prop) (m : M T) :
  (forall s, P s -> Q s) -> sends_only P m -> sends_only Q m.
Proof. intros HPQ H w. eapply extends_weaken; eauto. Qed.

Lemma sends_only_ret {T} P (v : T) : sends_only P (ret v).
Proof. intros w. apply extends_refl. Qed.

Lemma sends_only_raise {T} P e : sends_only P (@raise T e).
Proof. intros w. apply extends_refl. Qed.

Lemma sends_only_out_of_fuel {T} P : sends_only P (@out_of_fuel T).
Proof. intros w. apply extends_refl. Qed.

Lemma sends_only_bind {T U} P (m : M T) (k : T -> M U) :
  sends_only P m -> (forall v, sends_only P (k v)) -> sends_only P (bind m k).
Proof.
  intros Hm Hk w. unfold bind. specialize (Hm w).
  destruct (m w) as [[v | e |] w1]; simpl in *; try done.
  eapply extends_trans; [exact Hm | apply Hk].
Qed.

Lemma sends_only_try_except {T} P (body h1 h2 : M T) :
  sends_only P body -> sends_only P h1 -> sends_only P h2 ->
  sends_only P (try_except body h1 h2).
Proof.
  intros Hb H1 H2 w. unfold try_except. specialize (Hb w).
  destruct (body w) as [[v | [] |] w1]; simpl in *; try done;
    (eapply extends_trans; [exact Hb |]); [apply H1 | apply H2].
Qed.

Lemma sends_only_index0 {T} P (l : list T) : sends_only P (index0 l).
Proof. destruct l; [apply sends_only_raise | apply sends_only_ret]. Qed.

Create HintDb sends.
#[local] Hint Resolve sends_only_ret sends_only_raise sends_only_out_of_fuel
  sends_only_index0 : sends.


Lemma agrees_refl {T} (m : M T) : agrees m m.
Proof. by intros w _. Qed.

Lemma agrees_bind {T U} (m m' : M T) (k k' : T -> M U) :
  agrees m m' -> (forall v, agrees (k v) (k' v)) ->
  agrees (bind m k) (bind m' k').
Proof.
  intros Hm Hk w. unfold bind. specialize (Hm w).
  destruct (m w) as [[v | e |] w1] eqn:E; simpl in *; intros Hfuel;
    try done; rewrite Hm; try done.
  by apply Hk.
Qed.

Lemma agrees_try_except {T} (body body' h1 h2 : M T) :
  agrees body body' ->
  agrees (try_except body h1 h2) (try_except body' h1 h2).
Proof.
  intros Hb w. unfold try_except. specialize (Hb w).
  destruct (body w) as [[v | e |] w1] eqn:E; simpl in *; intros Hfuel;
    try done; by rewrite Hb.
Qed.

Section ResolverFacts.

Variable from_text : string -> Name.
Variable udp : list Sent -> Query -> string -> Outcome.

Lemma sends_only_query_udp (P : Sent -> Prop) q server :
  P (mkSent q server) -> sends_only P (query_udp udp q server).
Proof.
  intros H w. unfold query_udp.
  destruct (udp (sent w) q server); simpl; by apply extends_log_sent.
Qed.

Section LoopFacts.

Variable P : Sent -> Prop.
Variable walk : string -> bool -> M (Message * bool).
Variable sub_lookup : Target -> Z -> M Message.
Hypothesis walk_sends : forall server found, sends_only P (walk server found).
Hypothesis sub_lookup_sends : forall t, sends_only P (sub_lookup t rdatatype.A).

Lemma sends_only_glue_rdatas add response found :
  sends_only P (glue_rdatas walk add response found).
Proof.
  revert response found.
  induction add as [| addx rest IH]; intros response found; simpl.
  - auto with sends.
  - apply sends_only_bind.
    + destruct (_ =? _); auto with sends.
    + intros [r [|]]; auto with sends.
Qed.

Lemma sends_only_glue_rrsets adds response found :
  sends_only P (glue_rrsets walk adds response found).
Proof.
  revert response found.
  induction adds as [| add rest IH]; intros response found; simpl.
  - auto with sends.
  - apply sends_only_bind; [apply sends_only_glue_rdatas |].
    intros [r [|]]; auto with sends.
Qed.

Lemma sends_only_auth_rdatas auth response found :
  sends_only P (auth_rdatas walk sub_lookup auth response found).
Proof.
  revert response found.
  induction auth as [| authx rest IH]; intros response found; simpl.
  - auto with sends.
  - destruct (_ =? rdatatype.NS).
    + apply sends_only_bind; [apply sub_lookup_sends |]. intros ns.
      apply sends_only_bind; [auto with sends |]. intros ns_set.
      apply sends_only_bind; [auto with sends |]. intros ns_rd.
      apply sends_only_bind; [apply walk_sends |].
      intros [r f]. apply IH.
    + destruct (_ =? rdatatype.SOA); auto with sends.
Qed.

Lemma sends_only_auth_rrsets auths response found :
  sends_only P (auth_rrsets walk sub_lookup auths response found).
Proof.
  revert response found.
  induction auths as [| auth rest IH]; intros response found; simpl.
  - auto with sends.
  - apply sends_only_bind; [apply sends_only_auth_rdatas |].
    intros [r [|]]; auto with sends.
Qed.

Lemma sends_only_lookup_iter_body target_name qtype server found :
  P (mkSent (make_query from_text target_name qtype) server) ->
  sends_only P (lookup_iter_body from_text udp walk sub_lookup
                  target_name qtype server found).
Proof.
  intros HP. unfold lookup_iter_body.
  apply sends_only_try_except; auto with sends.
  apply sends_only_bind; [by apply sends_only_query_udp |].
  intros m. destruct (negb _); [auto with sends |].
  destruct (truthy (answer m)); [auto with sends |].
  destruct (truthy (additional m)); [apply sends_only_glue_rrsets |].
  destruct (_ && _); [apply sends_only_auth_rrsets | auto with sends].
Qed.

Lemma sends_only_lookup_servers restart qtype servers response found :
  (forall t, sends_only P (restart t qtype)) ->
  sends_only P (lookup_servers from_text walk restart qtype servers
                  response found).
Proof.
  intros Hrestart. revert response found.
  induction servers as [| server rest IH]; intros response found; simpl.
  - destruct response; auto with sends.
  - apply sends_only_bind; [apply walk_sends |].
    intros [r f]. destruct (answer r) as [| top tl].
    + destruct (authority r) as [| auth0 ?]; [apply IH |].
      destruct (_ =? _); [auto with sends | apply IH].
    + destruct (_ && _); [| auto with sends].
      apply sends_only_bind; [auto with sends |]. intros rd.
      apply Hrestart.
Qed.

End LoopFacts.

(** One unfolding of each function. *)
Lemma lookup_iter_S n target_name qtype server found :
  lookup_iter from_text udp (S n) target_name qtype server found
  = lookup_iter_body from_text udp
      (lookup_iter from_text udp n target_name qtype)
      (lookup from_text udp n) target_name qtype server found.
Proof. reflexivity. Qed.

Lemma lookup_S n target_name qtype :
  lookup from_text udp (S n) target_name qtype
  = lookup_servers from_text
      (lookup_iter from_text udp n target_name qtype)
      (lookup from_text udp n) qtype ROOT_SERVERS None false.
Proof. reflexivity. Qed.


Lemma own_or_A_qtype_or_A target_name qtype s :
  own_or_A from_text target_name qtype s -> qtype_or_A qtype s.
Proof.
  intros [H | H]; [left | by right].
  rewrite H. by destruct target_name.
Qed.

Lemma sends_of_walk_and_lookup fuel :
  (forall target_name qtype server found,
      sends_only (own_or_A from_text target_name qtype)
        (lookup_iter from_text udp fuel target_name qtype server found))
  /\ (forall target_name qtype,
      sends_only (qtype_or_A qtype)
        (lookup from_text udp fuel target_name qtype)).
Proof.
  induction fuel as [| n [IHwalk IHlookup]]; split; intros;
    try (by apply sends_only_out_of_fuel).
  - rewrite lookup_iter_S.
    apply sends_only_lookup_iter_body; [apply IHwalk | | by left].
    intros t. eapply sends_only_weaken; [| apply IHlookup].
    intros s [H | H]; by right.
  - rewrite lookup_S.
    apply sends_only_lookup_servers; [| intros t; apply IHlookup].
    intros server found.
    eapply sends_only_weaken; [| apply IHwalk].
    apply own_or_A_qtype_or_A.
Qed.

(** *** More fuel never changes a finished run *)

Section LoopFuel.

Variable walk walk' : string -> bool -> M (Message * bool).
Variable sub_lookup sub_lookup' : Target -> Z -> M Message.
Hypothesis walk_agrees : forall server found,
    agrees (walk server found) (walk' server found).
Hypothesis sub_lookup_agrees : forall t qtype,
    agrees (sub_lookup t qtype) (sub_lookup' t qtype).

Lemma agrees_glue_rdatas add response found :
  agrees (glue_rdatas walk add response found)
         (glue_rdatas walk' add response found).
Proof.
  revert response found.
  induction add as [| addx rest IH]; intros response found; simpl.
  - apply agrees_refl.
  - apply agrees_bind.
    + destruct (_ =? _); [apply walk_agrees | apply agrees_refl].
    + intros [r [|]]; [apply agrees_refl | apply IH].
Qed.

Lemma agrees_glue_rrsets adds response found :
  agrees (glue_rrsets walk adds response found)
         (glue_rrsets walk' adds response found).
Proof.
  revert response found.
  induction adds as [| add rest IH]; intros response found; simpl.
  - apply agrees_refl.
  - apply agrees_bind; [apply agrees_glue_rdatas |].
    intros [r [|]]; [apply agrees_refl | apply IH].
Qed.

Lemma agrees_auth_rdatas auth response found :
  agrees (auth_rdatas walk sub_lookup auth response found)
         (auth_rdatas walk' sub_lookup' auth response found).
Proof.
  revert response found.
  induction auth as [| authx rest IH]; intros response found; simpl.
  - apply agrees_refl.
  - destruct (_ =? rdatatype.NS).
    + apply agrees_bind; [apply sub_lookup_agrees |]. intros ns.
      apply agrees_bind; [apply agrees_refl |]. intros ns_set.
      apply agrees_bind; [apply agrees_refl |]. intros ns_rd.
      apply agrees_bind; [apply walk_agrees |].
      intros [r f]. apply IH.
    + destruct (_ =? rdatatype.SOA); [apply agrees_refl | apply IH].
Qed.

Lemma agrees_auth_rrsets auths response found :
  agrees (auth_rrsets walk sub_lookup auths response found)
         (auth_rrsets walk' sub_lookup' auths response found).
Proof.
  revert response found.
  induction auths as [| auth rest IH]; intros response found; simpl.
  - apply agrees_refl.
  - apply agrees_bind; [apply agrees_auth_rdatas |].
    intros [r [|]]; [apply agrees_refl | apply IH].
Qed.

Lemma agrees_lookup_iter_body target_name qtype server found :
  agrees (lookup_iter_body from_text udp walk sub_lookup
            target_name qtype server found)
         (lookup_iter_body from_text udp walk' sub_lookup'
            target_name qtype server found).
Proof.
  unfold lookup_iter_body. apply agrees_try_except.
  apply agrees_bind; [apply agrees_refl |].
  intros m. destruct (negb _); [apply agrees_refl |].
  destruct (truthy (answer m)); [apply agrees_refl |].
  destruct (truthy (additional m)); [apply agrees_glue_rrsets |].
  destruct (_ && _); [apply agrees_auth_rrsets | apply agrees_refl].
Qed.

Lemma agrees_lookup_servers qtype servers response found :
  agrees (lookup_servers from_text walk sub_lookup qtype servers
            response found)
         (lookup_servers from_text walk' sub_lookup' qtype servers
            response found).
Proof.
  revert response found.
  induction servers as [| server rest IH]; intros response found; simpl.
  - apply agrees_refl.
  - apply agrees_bind; [apply walk_agrees |].
    intros [r f]. destruct (answer r) as [| top tl].
    + destruct (authority r) as [| auth0 ?]; [apply IH |].
      destruct (_ =? _); [apply agrees_refl | apply IH].
    + destruct (_ && _); [| apply agrees_refl].
      apply agrees_bind; [apply agrees_refl |]. intros rd.
      apply sub_lookup_agrees.
Qed.

End LoopFuel.

Lemma fuel_step n :
  (forall target_name qtype server found,
      agrees (lookup_iter from_text udp n target_name qtype server found)
             (lookup_iter from_text udp (S n) target_name qtype server found))
  /\ (forall target_name qtype,
      agrees (lookup from_text udp n target_name qtype)
             (lookup from_text udp (S n) target_name qtype)).
Proof.
  induction n as [| n [IHwalk IHlookup]]; split; intros.
  - by intros w Hw.
  - by intros w Hw.
  - rewrite (lookup_iter_S (S n)), (lookup_iter_S n).
    apply agrees_lookup_iter_body; auto.
  - rewrite (lookup_S (S n)), (lookup_S n).
    apply agrees_lookup_servers; auto.
Qed.

Lemma lookup_iter_more_fuel k n target_name qtype server found w :
  fst (lookup_iter from_text udp n target_name qtype server found w)
    <> OutOfFuel ->
  lookup_iter from_text udp (k + n) target_name qtype server found w
  = lookup_iter from_text udp n target_name qtype server found w.
Proof.
  intros H. induction k as [| k IH]; [done |].
  change (S k + n)%nat with (S (k + n)).
  rewrite <- IH. apply (proj1 (fuel_step (k + n))). by rewrite IH.
Qed.

Lemma lookup_more_fuel k n target_name qtype w :
  fst (lookup from_text udp n target_name qtype w) <> OutOfFuel ->
  lookup from_text udp (k + n) target_name qtype w
  = lookup from_text udp n target_name qtype w.
Proof.
  intros H. induction k as [| k IH]; [done |].
  change (S k + n)%nat with (S (k + n)).
  rewrite <- IH. apply (proj2 (fuel_step (k + n))). by rewrite IH.
Qed.

(** ** The walker's own query *)

(** C5: when the transport reports a timeout or another DNS exception
    for the walker's query, the walker returns the empty Response (no
    answer, authority or additional records) with found = false,
    whatever the found flag was on entry. *)
Theorem walk_timeout_gives_empty_response
    n target_name qtype server found w :
  udp (sent w) (make_query from_text target_name qtype) server = TimedOut
  \/ udp (sent w) (make_query from_text target_name qtype) server
     = Malformed ->
  lookup_iter from_text udp (S n) target_name qtype server found w
  = (Ok (empty_message, false),
     log_sent (mkSent (make_query from_text target_name qtype) server) w)
  /\ answer empty_message = []
  /\ authority empty_message = []
  /\ additional empty_message = [].
Proof.
  intros H. split; [| done].
  rewrite lookup_iter_S.
  unfold lookup_iter_body, try_except, bind, query_udp.
  by destruct H as [-> | ->].
Qed.

(** A reply whose status is not NOERROR makes [response] an integer,
    and reading its answer section raises [AttributeError], which no
    handler of the program catches. *)
Lemma walk_bad_status_raises n target_name qtype server found w m :
  udp (sent w) (make_query from_text target_name qtype) server
    = Received m ->
  msg_rcode m <> rcode.NOERROR ->
  lookup_iter from_text udp (S n) target_name qtype server found w
  = (Raise AttributeError,
     log_sent (mkSent (make_query from_text target_name qtype) server) w).
Proof.
  intros Hm Hrc. rewrite lookup_iter_S.
  unfold lookup_iter_body, try_except, bind, query_udp. rewrite Hm.
  destruct (msg_rcode m =? rcode.NOERROR) eqn:E; [| done].
  apply Z.eqb_eq in E. done.
Qed.

(** ** Glue addresses *)

Lemma glue_rdatas_only_A walk add response w :
  glue_rdatas walk add response false w
  = glue_rdatas walk
      (List.filter (fun rd => rdata_rdtype rd =? rdatatype.A) add)
      response false w.
Proof.
  revert response w.
  induction add as [| addx rest IH]; intros response w; [done |].
  simpl. destruct (rdata_rdtype addx =? rdatatype.A) eqn:E; simpl.
  - rewrite E. unfold bind.
    destruct (walk _ _ w) as [[[r [|]] | e |] w1]; auto.
  - unfold bind, ret. apply IH.
Qed.

Lemma glue_rrsets_only_A walk adds response w :
  glue_rrsets walk adds response false w
  = glue_rrsets walk (map only_A adds) response false w.
Proof.
  revert response w.
  induction adds as [| add rest IH]; intros response w; [done |].
  simpl. unfold bind. rewrite <- glue_rdatas_only_A.
  destruct (glue_rdatas _ _ _ _ w) as [[[r [|]] | e |] w1]; auto.
Qed.

Lemma glue_rdatas_no_A walk add response found w :
  Forall (fun rd => rdata_rdtype rd <> rdatatype.A) add ->
  glue_rdatas walk add response found w = (Ok (response, found), w).
Proof.
  induction 1 as [| addx rest Hx _ IH]; [done |].
  simpl. apply Z.eqb_neq in Hx. rewrite Hx.
  unfold bind, ret. by destruct found.
Qed.

Lemma glue_rrsets_no_A walk adds response found w :
  no_A_record adds ->
  glue_rrsets walk adds response found w = (Ok (response, found), w).
Proof.
  induction 1 as [| add rest Hx _ IH]; [done |].
  simpl. unfold bind. rewrite glue_rdatas_no_A by done.
  by destruct found.
Qed.

(** C10, as the code has it: only additional-section records of type
    A are used as glue. With found = false on entry the glue loop
    behaves exactly as on the section with every non-A record removed;
    and a reply whose additional section is non-empty but holds no A
    record makes the walker return that reply and the found flag
    unchanged after its single query, the authority section not being
    consulted. *)
Theorem glue_uses_only_A_records :
  (forall walk adds response w,
      glue_rrsets walk adds response false w
      = glue_rrsets walk (map only_A adds) response false w)
  /\ (forall n target_name qtype server found w m,
        udp (sent w) (make_query from_text target_name qtype) server
          = Received m ->
        msg_rcode m = rcode.NOERROR ->
        answer m = [] ->
        additional m <> [] ->
        no_A_record (additional m) ->
        lookup_iter from_text udp (S n) target_name qtype server found w
        = (Ok (m, found),
           log_sent (mkSent (make_query from_text target_name qtype) server)
             w)).
Proof.
  split; [apply glue_rrsets_only_A |].
  intros n target_name qtype server found w m Hm Hrc Hans Hadd HnoA.
  rewrite lookup_iter_S.
  unfold lookup_iter_body, try_except, bind, query_udp.
  rewrite Hm. cbv beta iota zeta. rewrite Hrc. simpl. rewrite Hans. simpl.
  assert (Ht : truthy (additional m) = true)
    by (by destruct (additional m)).
  rewrite Ht. by rewrite glue_rrsets_no_A.
Qed.

(** The glue loop stops at the first address whose walk reports
    found: nothing after it is queried. *)
Lemma glue_rdatas_first_success walk addx rest response r w w' :
  rdata_rdtype addx = rdatatype.A ->
  walk (rdata_str addx) false w = (Ok (r, true), w') ->
  glue_rdatas walk (addx :: rest) response false w = (Ok (r, true), w').
Proof.
  intros HA Hwalk. simpl. rewrite HA. simpl. unfold bind. by rewrite Hwalk.
Qed.

Lemma glue_rrsets_first_success walk add adds addx rest response r w w' :
  rr_items add = addx :: rest ->
  rdata_rdtype addx = rdatatype.A ->
  walk (rdata_str addx) false w = (Ok (r, true), w') ->
  glue_rrsets walk (add :: adds) response false w = (Ok (r, true), w').
Proof.
  intros Hitems HA Hwalk. simpl. unfold bind. rewrite Hitems.
  by rewrite (glue_rdatas_first_success _ _ _ _ r w w').
Qed.

(** ** The root loop *)

Lemma lookup_servers_skips walk restart qtype pre post st st' :
  Skips walk pre st st' ->
  lookup_servers from_text walk restart qtype (pre ++ post)
    st.1.1 st.1.2 st.2
  = lookup_servers from_text walk restart qtype post
      st'.1.1 st'.1.2 st'.2.
Proof.
  induction 1 as [| server rest last found w r found' w' st' Hwalk Hans
                    Hauth _ IH]; [done |].
  simpl in *. unfold bind at 1. rewrite Hwalk, Hans.
  destruct (authority r) as [| auth0 tl] eqn:E; [exact IH |].
  specialize (Hauth _ _ eq_refl). apply Z.eqb_neq in Hauth.
  rewrite Hauth. exact IH.
Qed.

Lemma Skips_last walk servers st st' :
  Skips walk servers st st' ->
  servers <> [] \/ is_Some st.1.1 -> is_Some st'.1.1.
Proof.
  induction 1 as [| server rest last found w r found' w' st' _ _ _ _ IH];
    intros [H | H]; try done.
  - apply IH. right. by eexists.
  - apply IH. right. by eexists.
Qed.

Lemma lookup_servers_raise walk restart qtype server rest last found w e w' :
  walk server found w = (Raise e, w') ->
  lookup_servers from_text walk restart qtype (server :: rest) last found w
  = (Raise e, w').
Proof. intros H. simpl. unfold bind. by rewrite H. Qed.

(** C3: when the walk against a root server comes back with a
    non-empty answer section, the driver looks at the first answer
    RRset. If it is of type CNAME and the query type is not CNAME, the
    result of the lookup is the result of a fresh lookup from the root
    for the alias target and the same query type; otherwise the
    Response is returned as it is. *)
Theorem lookup_follows_cname n target_name qtype w
    pre server post last found1 w1 r found2 w2 top tl :
  ROOT_SERVERS = (pre ++ server :: post)%list ->
  Skips (lookup_iter from_text udp n target_name qtype) pre
    (None, false, w) (last, found1, w1) ->
  lookup_iter from_text udp n target_name qtype server found1 w1
    = (Ok (r, found2), w2) ->
  answer r = top :: tl ->
  (rr_rdtype top = rdatatype.CNAME -> qtype <> rdatatype.CNAME ->
   forall alias rest, rr_items top = alias :: rest ->
     lookup from_text udp (S n) target_name qtype w
     = lookup from_text udp n (TName (from_text (rdata_str alias))) qtype w2)
  /\ (rr_rdtype top <> rdatatype.CNAME \/ qtype = rdatatype.CNAME ->
      lookup from_text udp (S n) target_name qtype w = (Ok r, w2)).
Proof.
  intros Hroots Hskips Hwalk Hans.
  assert (Hstep : lookup from_text udp (S n) target_name qtype w
                  = (if (rr_rdtype top =? rdatatype.CNAME)
                        && negb (qtype =? rdatatype.CNAME)
                     then first_rd <- index0 (rr_items top) ;;
                          lookup from_text udp n
                            (TName (from_text (rdata_str first_rd))) qtype
                     else ret r) w2).
  { rewrite lookup_S, Hroots.
    rewrite (lookup_servers_skips _ _ _ _ _ _ _ Hskips). simpl.
    unfold bind at 1. by rewrite Hwalk, Hans. }
  rewrite Hstep. split.
  - intros Htop Hq alias rest Hitems.
    rewrite Htop, Hitems, Z.eqb_refl.
    by destruct (Z.eqb_spec qtype rdatatype.CNAME).
  - intros [Htop | Hq].
    + by destruct (Z.eqb_spec (rr_rdtype top) rdatatype.CNAME).
    + rewrite Hq, Z.eqb_refl. simpl. by rewrite andb_false_r.
Qed.

(** C4: when the walk against some root server comes back with an
    empty answer section and an authority section headed by an SOA
    RRset, the driver returns that Response and the world is the one
    that walk left: no further root server is queried. When every root
    server has been walked without an answer or such an SOA, the
    Response of the last walk is returned. *)
Theorem lookup_stops_at_soa n target_name qtype w :
  (forall pre server post last found1 w1 r found2 w2 auth0 tl,
      ROOT_SERVERS = (pre ++ server :: post)%list ->
      Skips (lookup_iter from_text udp n target_name qtype) pre
        (None, false, w) (last, found1, w1) ->
      lookup_iter from_text udp n target_name qtype server found1 w1
        = (Ok (r, found2), w2) ->
      answer r = [] ->
      authority r = auth0 :: tl ->
      rr_rdtype auth0 = rdatatype.SOA ->
      lookup from_text udp (S n) target_name qtype w = (Ok r, w2))
  /\ (forall last found' w',
        Skips (lookup_iter from_text udp n target_name qtype) ROOT_SERVERS
          (None, false, w) (last, found', w') ->
        exists r, last = Some r
                  /\ lookup from_text udp (S n) target_name qtype w
                     = (Ok r, w')).
Proof.
  split.
  - intros pre server post last found1 w1 r found2 w2 auth0 tl
      Hroots Hskips Hwalk Hans Hauth Hsoa.
    rewrite lookup_S, Hroots.
    rewrite (lookup_servers_skips _ _ _ _ _ _ _ Hskips). simpl.
    unfold bind at 1. rewrite Hwalk, Hans, Hauth.
    apply Z.eqb_eq in Hsoa. by rewrite Hsoa.
  - intros last found' w' Hskips.
    destruct (Skips_last _ _ _ _ Hskips) as [r Hr]; [by left |].
    simpl in Hr. subst last. exists r. split; [done |].
    rewrite lookup_S, <- (app_nil_r ROOT_SERVERS).
    by rewrite (lookup_servers_skips _ _ _ _ _ _ _ Hskips).
Qed.

(** ** What is sent, and in which order *)

Lemma walk_sends_any fuel target_name qtype server found :
  sends_only (fun _ => True)
    (lookup_iter from_text udp fuel target_name qtype server found).
Proof.
  eapply sends_only_weaken;
    [| apply (proj1 (sends_of_walk_and_lookup fuel))]. done.
Qed.

Lemma lookup_sends_any fuel target_name qtype :
  sends_only (fun _ => True) (lookup from_text udp fuel target_name qtype).
Proof.
  eapply sends_only_weaken;
    [| apply (proj2 (sends_of_walk_and_lookup fuel))]. done.
Qed.

Lemma extends_bind {T U} P (m : M T) (k : T -> M U) w :
  (forall v, sends_only P (k v)) ->
  extends P (snd (m w)) (snd (bind m k w)).
Proof.
  intros Hk. unfold bind.
  destruct (m w) as [[v | e |] w1]; simpl; [apply Hk | |];
    apply extends_refl.
Qed.

Lemma extends_try_except {T} P (body h1 h2 : M T) w :
  sends_only P h1 -> sends_only P h2 ->
  extends P (snd (body w)) (snd (try_except body h1 h2 w)).
Proof.
  intros H1 H2. unfold try_except.
  destruct (body w) as [[v | [] |] w1]; simpl;
    try apply extends_refl; [apply H1 | apply H2].
Qed.

(** A walk with fuel begins by sending its own question to [server]. *)
Lemma walk_first_send n target_name qtype server found w :
  extends (fun _ => True)
    (log_sent (mkSent (make_query from_text target_name qtype) server) w)
    (snd (lookup_iter from_text udp (S n) target_name qtype server found w)).
Proof.
  pose proof (walk_sends_any n target_name qtype) as Hwalk.
  pose proof (fun t => lookup_sends_any n t rdatatype.A) as Hsub.
  rewrite lookup_iter_S. unfold lookup_iter_body.
  eapply extends_trans; [| apply extends_try_except; auto with sends].
  eapply extends_trans; [| apply extends_bind].
  - unfold query_udp. destruct (udp _ _ _); apply extends_refl.
  - intros m. destruct (negb _); [auto with sends |].
    destruct (truthy (answer m)); [auto with sends |].
    destruct (truthy (additional m)); [by apply sends_only_glue_rrsets |].
    destruct (_ && _); [by apply sends_only_auth_rrsets | auto with sends].
Qed.

(** The root loop: whatever follows the walk of the first server only
    adds to what that walk sent. *)
Lemma lookup_servers_after_walk P walk restart qtype server rest
    response found w :
  (forall s f, sends_only P (walk s f)) ->
  (forall t, sends_only P (restart t qtype)) ->
  extends P (snd (walk server found w))
    (snd (lookup_servers from_text walk restart qtype (server :: rest)
            response found w)).
Proof.
  intros Hwalk Hrestart.
  pose proof (sends_only_lookup_servers P walk Hwalk restart qtype) as Hrest.
  simpl. apply extends_bind.
  intros [r f]. destruct (answer r) as [| top tl].
  - destruct (authority r) as [| auth0 ?]; [apply Hrest, Hrestart |].
    destruct (_ =? _); [auto with sends | apply Hrest, Hrestart].
  - destruct (_ && _); [| auto with sends].
    apply sends_only_bind; auto with sends.
Qed.

(** A lookup with fuel begins by asking the first root server. *)
Lemma lookup_first_send n target_name qtype w :
  extends (fun _ => True)
    (log_sent (mkSent (make_query from_text target_name qtype) "198.41.0.4")
       w)
    (snd (lookup from_text udp (S (S n)) target_name qtype w)).
Proof.
  rewrite lookup_S.
  eapply extends_trans; [apply walk_first_send |].
  unfold ROOT_SERVERS. apply lookup_servers_after_walk.
  - intros s f. apply walk_sends_any.
  - intros t. apply lookup_sends_any.
Qed.

(** The authority loop, at an NS record heading the section: whatever
    follows the sub-lookup only adds to what the sub-lookup sent. *)
Lemma auth_rrsets_after_sub_lookup P walk sub_lookup auth0 tl authx rest
    response found w :
  (forall s f, sends_only P (walk s f)) ->
  (forall t, sends_only P (sub_lookup t rdatatype.A)) ->
  rr_items auth0 = authx :: rest ->
  rdata_rdtype authx = rdatatype.NS ->
  extends P (snd (sub_lookup (TStr (rdata_str authx)) rdatatype.A w))
    (snd (auth_rrsets walk sub_lookup (auth0 :: tl) response found w)).
Proof.
  intros Hwalk Hsub Hitems Hns.
  pose proof (sends_only_auth_rrsets P walk sub_lookup Hwalk Hsub) as Hrrsets.
  pose proof (sends_only_auth_rdatas P walk sub_lookup Hwalk Hsub) as Hrdatas.
  simpl. rewrite Hitems.
  eapply extends_trans; [| apply extends_bind].
  - simpl. rewrite Hns. simpl. apply extends_bind.
    intros ns. apply sends_only_bind; [auto with sends |]. intros ns_set.
    apply sends_only_bind; [auto with sends |]. intros ns_rd.
    apply sends_only_bind; [apply Hwalk |]. intros [r f]. apply Hrdatas.
  - intros [r [|]]; [auto with sends | apply Hrrsets].
Qed.

(** C7: the address of a nameserver named in an authority section is
    always looked up with type A. Whatever the query type of a walk,
    every query it causes to be sent is either its own question or a
    question of type A; and when a reply without answer and glue
    carries an NS record at the head of its authority section, the
    very next query sent asks the first root server for the A record
    of that nameserver's name. *)
Theorem ns_sub_lookup_asks_type_A :
  (forall fuel target_name qtype server found w,
      extends (own_or_A from_text target_name qtype) w
        (snd (lookup_iter from_text udp fuel target_name qtype server
                found w)))
  /\ (forall n target_name qtype server w m auth0 tl authx rest,
        udp (sent w) (make_query from_text target_name qtype) server
          = Received m ->
        msg_rcode m = rcode.NOERROR ->
        answer m = [] ->
        additional m = [] ->
        authority m = auth0 :: tl ->
        rr_items auth0 = authx :: rest ->
        rdata_rdtype authx = rdatatype.NS ->
        exists later,
          sent (snd (lookup_iter from_text udp (S (S (S n))) target_name
                       qtype server false w))
          = (sent w
             ++ [ mkSent (make_query from_text target_name qtype) server;
                  mkSent (mkQuery (from_text (rdata_str authx)) rdatatype.A)
                         "198.41.0.4" ]
             ++ later)%list).
Proof.
  split.
  - intros. apply (proj1 (sends_of_walk_and_lookup fuel)).
  - intros n target_name qtype server w m auth0 tl authx rest
      Hm Hrc Hans Hadd Hauth Hitems Hns.
    set (s1 := mkSent (make_query from_text target_name qtype) server).
    set (s2 := mkSent (mkQuery (from_text (rdata_str authx)) rdatatype.A)
                      "198.41.0.4").
    assert (H : extends (fun _ => True) (log_sent s2 (log_sent s1 w))
                  (snd (lookup_iter from_text udp (S (S (S n))) target_name
                          qtype server false w))).
    { rewrite lookup_iter_S. unfold lookup_iter_body.
      eapply extends_trans; [| apply extends_try_except; auto with sends].
      unfold bind at 1, query_udp. rewrite Hm. cbv beta iota zeta.
      rewrite Hrc. simpl. rewrite Hans, Hadd, Hauth.
      cbn [truthy negb andb].
      eapply extends_trans;
        [| apply auth_rrsets_after_sub_lookup with (authx := authx)
                                                   (rest := rest); auto ].
      - apply (lookup_first_send n (TStr (rdata_str authx))).
      - intros s f. apply walk_sends_any.
      - intros t. apply lookup_sends_any. }
    destruct H as (later & -> & _). exists later. simpl.
    by rewrite <- !app_assoc.
Qed.

(** ** The Record Map *)

Lemma cname_entry_shape rd name : cname_shape name (cname_entry rd name).
Proof.
  unfold cname_shape, cname_entry. split; [| split].
  - rewrite !dom_insert_L, dom_empty_L. set_solver.
  - exists rd. rewrite lookup_insert_ne by done. by rewrite lookup_insert_eq.
  - by rewrite lookup_insert_eq.
Qed.

Lemma address_entry_shape n rd : address_shape (address_entry n rd).
Proof.
  unfold address_shape, address_entry. split; [| split].
  - rewrite !dom_insert_L, dom_empty_L. set_solver.
  - exists n. rewrite lookup_insert_ne by done. by rewrite lookup_insert_eq.
  - eexists. by rewrite lookup_insert_eq.
Qed.

Lemma mx_entry_shape n p x : mx_shape (mx_entry n p x).
Proof.
  unfold mx_shape, mx_entry. split; [| split; [| split]].
  - rewrite !dom_insert_L, dom_empty_L. set_solver.
  - exists n. rewrite !lookup_insert_ne by done. by rewrite lookup_insert_eq.
  - exists p. rewrite lookup_insert_ne by done. by rewrite lookup_insert_eq.
  - eexists. by rewrite lookup_insert_eq.
Qed.

Lemma collect_cnames_shape name answers :
  Forall (cname_shape name) (collect_cnames name answers).
Proof.
  unfold collect_cnames.
  induction answers as [| rs rest IH]; simpl; [constructor |].
  apply Forall_app. split; [| exact IH].
  induction (rr_items rs) as [| rd rds IHrd]; simpl; constructor;
    [apply cname_entry_shape | exact IHrd].
Qed.

Lemma collect_addresses_shape t answers :
  Forall address_shape (collect_addresses t answers).
Proof.
  unfold collect_addresses.
  induction answers as [| rs rest IH]; simpl; [constructor |].
  apply Forall_app. split; [| exact IH].
  induction (rr_items rs) as [| rd rds IHrd]; simpl; [constructor |].
  destruct (_ =? _); simpl; [constructor |]; auto.
  apply address_entry_shape.
Qed.

Lemma collect_mx_rdatas_shape mx_name items mxrecords w res w' :
  collect_mx_rdatas mx_name items mxrecords w = (res, w') ->
  w' = w
  /\ res <> OutOfFuel
  /\ (forall mx, res = Ok mx -> Forall mx_shape mxrecords ->
                 Forall mx_shape mx).
Proof.
  revert mxrecords.
  induction items as [| answer rest IH]; intros mxrecords; simpl.
  - intros [= <- <-]. split; [done |]. split; [done |]. by intros mx [= <-].
  - destruct (_ =? 15).
    + destruct answer; cbn [get_preference get_exchange];
        unfold bind, raise, ret;
        try (intros [= <- <-]; split; [done |]; split; done).
      intros H.
      destruct (IH _ H) as (-> & Hfuel & Hshape).
      split; [done |]. split; [done |]. intros mx Hmx Hacc.
      apply Hshape; [done |]. apply Forall_app. split; [done |].
      constructor; [apply mx_entry_shape | constructor].
    + apply IH.
Qed.

Lemma collect_mx_shape answers mxrecords w res w' :
  collect_mx answers mxrecords w = (res, w') ->
  w' = w
  /\ res <> OutOfFuel
  /\ (forall mx, res = Ok mx -> Forall mx_shape mxrecords ->
                 Forall mx_shape mx).
Proof.
  revert mxrecords w.
  induction answers as [| rs rest IH]; intros mxrecords w; simpl.
  - intros [= <- <-]. split; [done |]. split; [done |]. by intros mx [= <-].
  - unfold bind.
    destruct (collect_mx_rdatas _ _ _ w) as [[acc | e |] w1] eqn:E;
      destruct (collect_mx_rdatas_shape _ _ _ _ _ _ E) as (-> & Hf & Hs).
    + intros H. destruct (IH _ _ H) as (-> & Hfuel & Hshape).
      split; [done |]. split; [done |]. intros mx Hmx Hacc.
      apply Hshape; [done |]. by apply Hs.
    + intros [= <- <-]. split; [done |]. split; done.
    + done.
Qed.

Ltac step_lookup H w :=
  match type of H with
  | context [lookup _ _ ?n ?t ?q w] =>
      let E := fresh "E" in
      pose proof (lookup_sends_any n t q w) as E;
      destruct (lookup from_text udp n t q w) as [[? | ? |] ?];
      simpl in E
  end.

(** What a run of [collect_results] returns and leaves behind. *)
Lemma collect_results_spec fuel name w res w' :
  collect_results from_text udp fuel name w = (res, w') ->
  match res with
  | Ok rm =>
      exists cn a aaaa mx new,
        rm = <["MX" := mx]> (<["AAAA" := aaaa]> (<["A" := a]>
               (<["CNAME" := cn]> ∅)))
        /\ Forall (cname_shape name) cn
        /\ Forall address_shape a
        /\ Forall address_shape aaaa
        /\ Forall mx_shape mx
        /\ w' = mkWorld (<[name := rm]> (cache w)) (Some name) (Some rm)
                       (sent w ++ new)
  | _ => extends (fun _ => True) w w'
  end.
Proof.
  intros H. unfold collect_results, bind in H.
  step_lookup H w;
    [| injection H as <- <-; done | injection H as <- <-; done].
  step_lookup H w0;
    [| injection H as <- <-; eauto using extends_trans
     | injection H as <- <-; eauto using extends_trans].
  step_lookup H w1;
    [| injection H as <- <-; eauto using extends_trans
     | injection H as <- <-; eauto using extends_trans].
  step_lookup H w2;
    [| injection H as <- <-; eauto using extends_trans
     | injection H as <- <-; eauto using extends_trans].
  assert (Hw : extends (fun _ => True) w w3) by eauto using extends_trans.
  destruct (collect_mx _ _ w3) as [[mx | e |] w4] eqn:Emx;
    apply collect_mx_shape in Emx as (-> & Hfuel & Hshape);
    [| by injection H as <- <- | done].
  unfold cache_add, ret in H. injection H as <- <-.
  destruct Hw as (new & -> & _). simpl.
  eexists _, _, _, mx, new. split; [reflexivity |].
  repeat split;
    auto using collect_cnames_shape, collect_addresses_shape.
Qed.

(** C9: the Record Map returned for a name has exactly the keys CNAME,
    A, AAAA and MX, each bound to a list; every CNAME entry has the
    fields name and alias, the alias being the queried name; every A
    and AAAA entry has the fields name and address; every MX entry has
    the fields name, preference and exchange. *)
Theorem record_map_shape fuel name w rm w' :
  collect_results from_text udp fuel name w = (Ok rm, w') ->
  dom rm = ({["CNAME"; "A"; "AAAA"; "MX"]} : gset string)
  /\ (exists cn, rm !! "CNAME" = Some cn /\ Forall (cname_shape name) cn)
  /\ (exists a, rm !! "A" = Some a /\ Forall address_shape a)
  /\ (exists aaaa, rm !! "AAAA" = Some aaaa /\ Forall address_shape aaaa)
  /\ (exists mx, rm !! "MX" = Some mx /\ Forall mx_shape mx).
Proof.
  intros H. apply collect_results_spec in H.
  destruct H as (cn & a & aaaa & mx & new & -> & Hcn & Ha & Haaaa & Hmx & _).
  split; [| split; [| split; [| split]]].
  - rewrite !dom_insert_L, dom_empty_L. set_solver.
  - exists cn. split; [| done].
    rewrite !lookup_insert_ne by done. by rewrite lookup_insert_eq.
  - exists a. split; [| done].
    rewrite !lookup_insert_ne by done. by rewrite lookup_insert_eq.
  - exists aaaa. split; [| done].
    rewrite !lookup_insert_ne by done. by rewrite lookup_insert_eq.
  - exists mx. split; [| done]. by rewrite lookup_insert_eq.
Qed.

(** ** The name cache *)

(** The cache is written by [collect_results] only, and only when the
    Record Map has been assembled. *)
Lemma collect_results_cache fuel name w res w' :
  collect_results from_text udp fuel name w = (res, w') ->
  match res with
  | Ok rm => cache w' = <[name := rm]> (cache w) /\ dict_truthy rm = true
  | _ => cache w' = cache w
  end.
Proof.
  intros H. apply collect_results_spec in H.
  destruct res as [rm | e |]; try (by destruct H as (new & -> & _)).
  destruct H as (cn & a & aaaa & mx & new & -> & _ & _ & _ & _ & ->).
  split; [done |]. unfold dict_truthy.
  destruct (size _) eqn:E; [| done].
  apply map_size_empty_iff in E. by apply insert_non_empty in E.
Qed.

Lemma main_step_cache fuel name w res w' :
  cache_wf w ->
  main_step from_text udp fuel name w = (res, w') ->
  cache_wf w'
  /\ (forall k (rm : RecordMap),
        cache w !! k = Some rm -> cache w' !! k = Some rm)
  /\ (forall rm, res = Ok rm -> cache w' !! name = Some rm).
Proof.
  intros Hwf H. unfold main_step in H.
  assert (Hmiss : cache w !! name = None ->
          collect_results from_text udp fuel name w = (res, w') ->
          cache_wf w'
          /\ (forall k (rm : RecordMap),
                cache w !! k = Some rm -> cache w' !! k = Some rm)
          /\ (forall rm, res = Ok rm -> cache w' !! name = Some rm)).
  { intros Hnone Hc. apply collect_results_cache in Hc.
    destruct res as [rm | e |].
    - destruct Hc as [Hc Ht]. split; [| split].
      + intros k rm'. rewrite Hc.
        destruct (decide (name = k)) as [<- | Hne].
        * rewrite lookup_insert_eq. by intros [= <-].
        * rewrite lookup_insert_ne by done. apply Hwf.
      + intros k rm' Hk. rewrite Hc.
        destruct (decide (name = k)) as [<- | Hne]; [congruence |].
        by rewrite lookup_insert_ne.
      + intros rm' [= <-]. rewrite Hc. by rewrite lookup_insert_eq.
    - split; [| split]; [| | done].
      + intros k rm'. rewrite Hc. apply Hwf.
      + intros k rm'. by rewrite Hc.
    - split; [| split]; [| | done].
      + intros k rm'. rewrite Hc. apply Hwf.
      + intros k rm'. by rewrite Hc. }
  destruct (cache w !! name) as [c |] eqn:Ec; [| by apply Hmiss].
  rewrite (Hwf _ _ Ec) in H. injection H as <- <-.
  split; [done |]. split; [done |]. by intros rm [= <-].
Qed.

Lemma main_loop_cache fuel names w res w' :
  cache_wf w ->
  main_loop from_text udp fuel names w = (res, w') ->
  cache_wf w'
  /\ (forall k (rm : RecordMap),
        cache w !! k = Some rm -> cache w' !! k = Some rm).
Proof.
  revert w res w'.
  induction names as [| name rest IH]; intros w res w' Hwf; simpl.
  - by intros [= <- <-].
  - unfold bind at 1.
    destruct (main_step _ _ _ _ w) as [r1 w1] eqn:E1.
    destruct (main_step_cache _ _ _ _ _ Hwf E1) as (Hwf1 & Hkeep1 & _).
    destruct r1 as [printed | e |]; try (by intros [= <- <-]).
    unfold bind at 1.
    destruct (main_loop _ _ _ _ w1) as [r2 w2] eqn:E2.
    destruct (IH _ _ _ Hwf1 E2) as (Hwf2 & Hkeep2).
    destruct r2 as [others | e |]; intros [= <- <-]; auto.
Qed.

(** C8: once a lookup of a name has completed, its Record Map is in
    the cache, and after any further completed lookups it is still
    there: a later lookup of that name, with any fuel, returns the same
    Record Map and leaves the world as it is, so it sends no query and
    writes no entry. The cache is written only by a run of the
    collector that returns, with the Record Map it returns. *)
Theorem cached_name_is_not_resolved_again fuel name w0 rm w1 :
  cache_wf w0 ->
  main_step from_text udp fuel name w0 = (Ok rm, w1) ->
  cache w1 !! name = Some rm
  /\ (forall fuel' names printed w2,
        main_loop from_text udp fuel' names w1 = (Ok printed, w2) ->
        cache w2 !! name = Some rm
        /\ forall fuel'',
             main_step from_text udp fuel'' name w2 = (Ok rm, w2))
  /\ (forall fuel' name' w res w',
        collect_results from_text udp fuel' name' w = (res, w') ->
        match res with
        | Ok rm' => cache w' = <[name' := rm']> (cache w)
        | _ => cache w' = cache w
        end).
Proof.
  intros Hwf H.
  destruct (main_step_cache _ _ _ _ _ Hwf H) as (Hwf1 & _ & Hin).
  specialize (Hin rm eq_refl). split; [done |]. split.
  - intros fuel' names printed w2 Hloop.
    destruct (main_loop_cache _ _ _ _ _ Hwf1 Hloop) as (Hwf2 & Hkeep).
    specialize (Hkeep _ _ Hin). split; [done |].
    intros fuel''. unfold main_step. rewrite Hkeep.
    by rewrite (Hwf2 _ _ Hkeep).
  - intros fuel' name' w res w' Hc.
    apply collect_results_cache in Hc.
    destruct res; [apply Hc | done | done].
Qed.

Lemma lookup_agrees_more k n target_name qtype :
  agrees (lookup from_text udp n target_name qtype)
         (lookup from_text udp (k + n) target_name qtype).
Proof. intros w H. by apply lookup_more_fuel. Qed.

Lemma collect_results_more_fuel k n name w :
  fst (collect_results from_text udp n name w) <> OutOfFuel ->
  collect_results from_text udp (k + n) name w
  = collect_results from_text udp n name w.
Proof.
  revert w. change (agrees (collect_results from_text udp n name)
                           (collect_results from_text udp (k + n) name)).
  unfold collect_results.
  repeat (apply agrees_bind; [apply lookup_agrees_more | intros ?]).
  apply agrees_refl.
Qed.

End ResolverFacts.

(** * The resolver on the concrete networks *)

Lemma initial_world_wf : cache_wf initial_world.
Proof. intros k rm H. simpl in H. by rewrite lookup_empty in H. Qed.

(** C1: a reply with status SERVFAIL does not degrade to the empty
    Response. With any fuel, the walker raises [AttributeError] right
    after its query, and so does the collector for that name: the
    exception is not one the walker handles. The specification asks for
    [(empty_message, false)] here. *)
Theorem servfail_reply_raises_attribute_error n :
  lookup_iter absolute net_servfail (S n) www rdatatype.A root0 false
    initial_world
  = (Raise AttributeError,
     log_sent (mkSent (mkQuery (mkName "www.example.") rdatatype.A) root0)
       initial_world)
  /\ fst (collect_results absolute net_servfail (n + 2) "www.example"
            initial_world)
     = Raise AttributeError.
Proof.
  split.
  - by apply walk_bad_status_raises with (m := mkMessage 2 [] [] []).
  - rewrite collect_results_more_fuel; by vm_compute.
Qed.

(** C2: a delegation to a nameserver whose address cannot be found
    aborts the resolution. The sub-lookup for the nameserver returns a
    Response with an empty answer section; reading its first address
    raises [IndexError], which escapes the walker, the driver and the
    collector. The specification asks for a run without error. *)
Theorem lame_delegation_raises_index_error n :
  fst (lookup absolute net_lame (n + 2) (TStr "ns1.example.") rdatatype.A
         (log_sent (mkSent (mkQuery (mkName "www.example.") rdatatype.A) root0)
            initial_world))
  = Ok empty_message
  /\ fst (lookup_iter absolute net_lame (n + 3) www rdatatype.A root0 false
            initial_world)
     = Raise IndexError
  /\ fst (lookup absolute net_lame (n + 4) www rdatatype.A initial_world)
     = Raise IndexError
  /\ fst (collect_results absolute net_lame (n + 4) "www.example"
            initial_world)
     = Raise IndexError.
Proof.
  split; [| split; [| split]].
  - rewrite lookup_more_fuel; by vm_compute.
  - rewrite lookup_iter_more_fuel; by vm_compute.
  - rewrite lookup_more_fuel; by vm_compute.
  - rewrite collect_results_more_fuel; by vm_compute.
Qed.

(** C6: the authority loop does not stop at the first success. With two
    NS records in one RRset, the walk against the first nameserver
    finds the answer; the loop nevertheless looks up the second
    nameserver and walks against it, and the time-out of that walk
    replaces the answer by the empty Response with found = false. The
    specification asks that nothing be queried after the first success. *)
Theorem authority_loop_continues_after_success n :
  fst (lookup_iter absolute net_two_ns (n + 1) www rdatatype.A "192.0.2.1"
         false initial_world)
  = Ok (mkMessage 0 [a_rrset "www.example." "192.0.2.80"] [] [], true)
  /\ fst (lookup_iter absolute net_two_ns (n + 4) www rdatatype.A root0 false
            initial_world)
     = Ok (empty_message, false)
  /\ map (fun s => (name_to_text (q_name (s_query s)), s_where s))
         (sent (snd (lookup_iter absolute net_two_ns (n + 4) www rdatatype.A
                       root0 false initial_world)))
     = [ ("www.example.", "198.41.0.4");
         ("ns1.example.", "198.41.0.4");
         ("www.example.", "192.0.2.1");
         ("ns2.example.", "198.41.0.4");
         ("www.example.", "192.0.2.2") ].
Proof.
  split; [| split].
  - rewrite lookup_iter_more_fuel; by vm_compute.
  - rewrite lookup_iter_more_fuel; by vm_compute.
  - rewrite lookup_iter_more_fuel; by vm_compute.
Qed.

(** C10 as stated fails: a referral whose additional section holds only
    an AAAA record is not treated like a referral without glue. With
    the AAAA glue the walker returns the referral itself, found = false,
    after one query; the same referral without any glue is followed
    through its NS record to the answer, found = true, in three queries. *)
Lemma aaaa_only_glue_is_a_dead_end :
  no_A_record glue_aaaa
  /\ (exists m, fst (lookup_iter absolute (net_referral glue_aaaa) 4 www
                       rdatatype.A root0 false initial_world)
                = Ok (m, false)
                /\ answer m = [] /\ additional m = glue_aaaa)
  /\ length (sent (snd (lookup_iter absolute (net_referral glue_aaaa) 4 www
                          rdatatype.A root0 false initial_world))) = 1%nat
  /\ fst (lookup_iter absolute (net_referral []) 4 www rdatatype.A root0
            false initial_world)
     = Ok (mkMessage 0 [a_rrset "www.example." "192.0.2.80"] [] [], true)
  /\ length (sent (snd (lookup_iter absolute (net_referral []) 4 www
                          rdatatype.A root0 false initial_world))) = 3%nat.
Proof.
  split; [| split; [| split; [| split]]].
  - repeat constructor. done.
  - eexists. by vm_compute.
  - by vm_compute.
  - by vm_compute.
  - by vm_compute.
Qed.

(** ** Instances of the general theorems *)

(** The walker against a silent server, found = true on entry. *)
Lemma walk_timeout_gives_empty_response_witness :
  lookup_iter absolute net_silent 1 www rdatatype.A root0 true initial_world
  = (Ok (empty_message, false),
     log_sent (mkSent (make_query absolute www rdatatype.A) root0)
       initial_world)
  /\ answer empty_message = []
  /\ authority empty_message = []
  /\ additional empty_message = [].
Proof.
  apply (walk_timeout_gives_empty_response absolute net_silent 0 www
           rdatatype.A root0 true initial_world).
  left. reflexivity.
Defined.

(** An A lookup of the alias is the A lookup of its target, restarted
    from the root; a CNAME lookup of the alias returns the CNAME
    Response itself. *)
Lemma lookup_follows_cname_witness :
  lookup absolute net_alias 3 www rdatatype.A initial_world
  = lookup absolute net_alias 2 (TName (absolute "web.example.")) rdatatype.A
      (log_sent (mkSent (make_query absolute www rdatatype.A) root0)
         initial_world)
  /\ lookup absolute net_alias 3 www rdatatype.CNAME initial_world
     = (Ok (mkMessage 0 [alias_rrset] [] []),
        log_sent (mkSent (make_query absolute www rdatatype.CNAME) root0)
          initial_world).
Proof.
  split.
  - refine (proj1 (lookup_follows_cname absolute net_alias 2 www rdatatype.A
                     initial_world [] root0 (tail ROOT_SERVERS) None false
                     initial_world (mkMessage 0 [alias_rrset] [] []) true _
                     alias_rrset [] eq_refl (Skips_nil _ _) eq_refl eq_refl)
                  eq_refl _ (RD_CNAME (mkName "web.example.")) [] eq_refl).
    discriminate.
  - refine (proj2 (lookup_follows_cname absolute net_alias 2 www
                     rdatatype.CNAME initial_world [] root0 (tail ROOT_SERVERS)
                     None false initial_world
                     (mkMessage 0 [alias_rrset] [] []) true _
                     alias_rrset [] eq_refl (Skips_nil _ _) eq_refl eq_refl)
                  _).
    right. reflexivity.
Defined.

(** The root loop on [net_nodata] stops at the second root server; on
    [net_silent] it walks all thirteen and returns the last Response. *)
Lemma lookup_stops_at_soa_witness :
  lookup absolute net_nodata 2 www rdatatype.A initial_world
  = (Ok (mkMessage 0 [] [soa_rrset "example."] []),
     asked_all "www.example." rdatatype.A [root0; root1] initial_world)
  /\ exists r, Some empty_message = Some r
               /\ lookup absolute net_silent 2 www rdatatype.A initial_world
                  = (Ok r, asked_all "www.example." rdatatype.A ROOT_SERVERS
                             initial_world).
Proof.
  split.
  - refine (proj1 (lookup_stops_at_soa absolute net_nodata 1 www rdatatype.A
                     initial_world)
              [root0] root1 (drop 2 ROOT_SERVERS) (Some empty_message) false
              (asked_all "www.example." rdatatype.A [root0] initial_world)
              (mkMessage 0 [] [soa_rrset "example."] []) true _
              (soa_rrset "example.") [] eq_refl _ eq_refl eq_refl eq_refl
              eq_refl).
    eapply Skips_cons;
      [reflexivity | reflexivity | intros; discriminate | apply Skips_nil].
  - refine (proj2 (lookup_stops_at_soa absolute net_silent 1 www rdatatype.A
                     initial_world)
              (Some empty_message) false _ _).
    unfold ROOT_SERVERS.
    repeat (eapply Skips_cons;
            [reflexivity | reflexivity | intros; discriminate |]).
    apply Skips_nil.
Defined.

(** An AAAA walk on [net_two_ns]: right after the referral, the first
    root server is asked for the A record of [ns1.example.]. *)
Lemma ns_sub_lookup_asks_type_A_witness :
  exists later,
    sent (snd (lookup_iter absolute net_two_ns 4 www rdatatype.AAAA root0
                 false initial_world))
    = (sent initial_world
       ++ [ mkSent (make_query absolute www rdatatype.AAAA) root0;
            mkSent (mkQuery (absolute "ns1.example.") rdatatype.A)
                   "198.41.0.4" ]
       ++ later)%list.
Proof.
  refine (proj2 (ns_sub_lookup_asks_type_A absolute net_two_ns)
            1%nat www rdatatype.AAAA root0 initial_world
            (mkMessage 0 [] [two_ns_rrset] []) two_ns_rrset []
            (RD_NS (mkName "ns1.example.")) [RD_NS (mkName "ns2.example.")]
            eq_refl eq_refl eq_refl eq_refl eq_refl eq_refl eq_refl).
Defined.

(** On [net_referral glue_aaaa] the walker returns the referral after
    its single query. *)
Lemma glue_uses_only_A_records_witness :
  lookup_iter absolute (net_referral glue_aaaa) 1 www rdatatype.A root0 false
    initial_world
  = (Ok (mkMessage 0 []
           [mkRRset (mkName "example.") rdatatype.NS
              [RD_NS (mkName "ns1.example.")]]
           glue_aaaa, false),
     log_sent (mkSent (make_query absolute www rdatatype.A) root0)
       initial_world).
Proof.
  refine (proj2 (glue_uses_only_A_records absolute (net_referral glue_aaaa))
            0%nat www rdatatype.A root0 false initial_world _
            eq_refl eq_refl eq_refl _ _).
  - discriminate.
  - repeat constructor. discriminate.
Defined.

(** The Record Map of [example.com] on [net_direct]. *)
Lemma record_map_shape_witness :
  dom example_com_records = ({["CNAME"; "A"; "AAAA"; "MX"]} : gset string)
  /\ (exists cn, example_com_records !! "CNAME" = Some cn
                 /\ Forall (cname_shape "example.com") cn)
  /\ (exists a, example_com_records !! "A" = Some a
                /\ Forall address_shape a)
  /\ (exists aaaa, example_com_records !! "AAAA" = Some aaaa
                   /\ Forall address_shape aaaa)
  /\ (exists mx, example_com_records !! "MX" = Some mx
                 /\ Forall mx_shape mx).
Proof.
  apply (record_map_shape absolute net_direct 2 "example.com" initial_world
           example_com_records example_com_world).
  vm_compute. reflexivity.
Defined.

(** After [example.com] has been resolved on [net_direct], it is served
    from the cache. *)
Lemma cached_name_is_not_resolved_again_witness :
  cache example_com_world !! "example.com" = Some example_com_records
  /\ (forall fuel' names printed w2,
        main_loop absolute net_direct fuel' names example_com_world
          = (Ok printed, w2) ->
        cache w2 !! "example.com" = Some example_com_records
        /\ forall fuel'',
             main_step absolute net_direct fuel'' "example.com" w2
             = (Ok example_com_records, w2))
  /\ (forall fuel' name' w res w',
        collect_results absolute net_direct fuel' name' w = (res, w') ->
        match res with
        | Ok rm' => cache w' = <[name' := rm']> (cache w)
        | _ => cache w' = cache w
        end).
Proof.
  apply (cached_name_is_not_resolved_again absolute net_direct 2
           "example.com" initial_world example_com_records example_com_world).
  - apply initial_world_wf.
  - vm_compute. reflexivity.
Defined.

(** * Further properties of the resolver *)

Section WalkerFacts.

Variable from_text : string -> Name.
Variable udp : list Sent -> Query -> string -> Outcome.

(** ** Replies that end a walk *)

Lemma walk_failed_query n target_name qtype server found w :
  udp (sent w) (make_query from_text target_name qtype) server = TimedOut
  \/ udp (sent w) (make_query from_text target_name qtype) server
     = Malformed ->
  lookup_iter from_text udp (S n) target_name qtype server found w
  = (Ok (empty_message, false),
     log_sent (mkSent (make_query from_text target_name qtype) server) w).
Proof.
  intros H. rewrite lookup_iter_S.
  unfold lookup_iter_body, try_except, bind, query_udp.
  by destruct H as [-> | ->].
Qed.

(** The walker on a reply with status NOERROR, up to the classification
    of its sections. *)
Lemma walk_received n target_name qtype server found w m :
  udp (sent w) (make_query from_text target_name qtype) server
    = Received m ->
  msg_rcode m = rcode.NOERROR ->
  lookup_iter from_text udp (S n) target_name qtype server found w
  = try_except
      (if truthy (answer m) then ret (m, true)
       else if truthy (additional m) then
         glue_rrsets (lookup_iter from_text udp n target_name qtype)
           (additional m) m found
       else if truthy (authority m) && negb found then
         auth_rrsets (lookup_iter from_text udp n target_name qtype)
           (lookup from_text udp n) (authority m) m found
       else ret (m, found))
      (ret (empty_message, false)) (ret (empty_message, false))
      (log_sent (mkSent (make_query from_text target_name qtype) server) w).
Proof.
  intros Hm Hrc. rewrite lookup_iter_S.
  unfold lookup_iter_body, try_except, bind at 1, query_udp.
  rewrite Hm. cbv beta iota zeta. by rewrite Hrc.
Qed.

Lemma walk_answer n target_name qtype server found w m :
  udp (sent w) (make_query from_text target_name qtype) server
    = Received m ->
  msg_rcode m = rcode.NOERROR ->
  answer m <> [] ->
  lookup_iter from_text udp (S n) target_name qtype server found w
  = (Ok (m, true),
     log_sent (mkSent (make_query from_text target_name qtype) server) w).
Proof.
  intros Hm Hrc Hans. rewrite (walk_received _ _ _ _ _ _ _ Hm Hrc).
  unfold try_except. by destruct (answer m).
Qed.

Lemma walk_soa n target_name qtype server w m auth0 tl authx rest :
  udp (sent w) (make_query from_text target_name qtype) server
    = Received m ->
  msg_rcode m = rcode.NOERROR ->
  answer m = [] ->
  additional m = [] ->
  authority m = auth0 :: tl ->
  rr_items auth0 = authx :: rest ->
  rdata_rdtype authx = rdatatype.SOA ->
  lookup_iter from_text udp (S n) target_name qtype server false w
  = (Ok (m, true),
     log_sent (mkSent (make_query from_text target_name qtype) server) w).
Proof.
  intros Hm Hrc Hans Hadd Hauth Hitems Hsoa.
  rewrite (walk_received _ _ _ _ _ _ _ Hm Hrc).
  unfold try_except. rewrite Hans, Hadd, Hauth. simpl.
  unfold bind. rewrite Hitems. simpl. by rewrite Hsoa.
Qed.

(** X1: a NOERROR reply with a non-empty answer section ends the walk at
    once: the reply is returned with found = True after the single
    query, whatever its other sections hold and whatever the found flag
    was on entry. *)
Theorem walk_answer_is_terminal n target_name qtype server found w m :
  udp (sent w) (make_query from_text target_name qtype) server
    = Received m ->
  msg_rcode m = rcode.NOERROR ->
  answer m <> [] ->
  lookup_iter from_text udp (S n) target_name qtype server found w
  = (Ok (m, true),
     log_sent (mkSent (make_query from_text target_name qtype) server) w).
Proof. apply walk_answer. Qed.

(** X2: a NOERROR reply without answer and glue whose authority section
    starts with an SOA record is an authoritative negative: the walker
    returns that reply with found = True after its single query, and
    the driver, walking the first root server, returns it without
    asking any other root server. *)
Theorem soa_reply_is_negative n target_name qtype w m auth0 tl authx rest :
  udp (sent w) (make_query from_text target_name qtype) "198.41.0.4"
    = Received m ->
  msg_rcode m = rcode.NOERROR ->
  answer m = [] ->
  additional m = [] ->
  authority m = auth0 :: tl ->
  rr_rdtype auth0 = rdatatype.SOA ->
  rr_items auth0 = authx :: rest ->
  rdata_rdtype authx = rdatatype.SOA ->
  lookup_iter from_text udp (S n) target_name qtype "198.41.0.4" false w
  = (Ok (m, true),
     log_sent (mkSent (make_query from_text target_name qtype) "198.41.0.4")
       w)
  /\ lookup from_text udp (S (S n)) target_name qtype w
     = (Ok m,
        log_sent (mkSent (make_query from_text target_name qtype)
                         "198.41.0.4") w).
Proof.
  intros Hm Hrc Hans Hadd Hauth Htype Hitems Hsoa.
  pose proof (walk_soa n _ _ _ _ _ _ _ _ _ Hm Hrc Hans Hadd Hauth Hitems Hsoa)
    as Hwalk.
  split; [exact Hwalk |].
  rewrite lookup_S. unfold ROOT_SERVERS. simpl. unfold bind.
  rewrite Hwalk, Hans, Hauth, Htype. done.
Qed.

(** X3: a NOERROR reply without answer and glue is returned unchanged,
    with the found flag as it was, after the single query, when its
    authority section is empty or when found is already True: in the
    latter case the authority section is not followed. *)
Theorem walk_without_leads n target_name qtype server found w m :
  udp (sent w) (make_query from_text target_name qtype) server
    = Received m ->
  msg_rcode m = rcode.NOERROR ->
  answer m = [] ->
  additional m = [] ->
  authority m = [] \/ found = true ->
  lookup_iter from_text udp (S n) target_name qtype server found w
  = (Ok (m, found),
     log_sent (mkSent (make_query from_text target_name qtype) server) w).
Proof.
  intros Hm Hrc Hans Hadd Hlead.
  rewrite (walk_received _ _ _ _ _ _ _ Hm Hrc).
  unfold try_except. rewrite Hans, Hadd. simpl.
  destruct Hlead as [-> | ->]; [done |].
  by rewrite andb_false_r.
Qed.

(** X4: the first glue address wins. When a NOERROR reply without answer
    carries an A record at the head of its additional section and the
    walk against that address reports found, the walker returns the
    result of that walk and the world it left: no other glue address,
    and no nameserver of the authority section, is queried. *)
Theorem first_glue_success_ends_walk
    n target_name qtype server w m add adds addx rest r w' :
  udp (sent w) (make_query from_text target_name qtype) server
    = Received m ->
  msg_rcode m = rcode.NOERROR ->
  answer m = [] ->
  additional m = add :: adds ->
  rr_items add = addx :: rest ->
  rdata_rdtype addx = rdatatype.A ->
  lookup_iter from_text udp n target_name qtype (rdata_str addx) false
    (log_sent (mkSent (make_query from_text target_name qtype) server) w)
  = (Ok (r, true), w') ->
  lookup_iter from_text udp (S n) target_name qtype server false w
  = (Ok (r, true), w').
Proof.
  intros Hm Hrc Hans Hadd Hitems HA Hwalk.
  rewrite (walk_received _ _ _ _ _ _ _ Hm Hrc).
  unfold try_except. rewrite Hans, Hadd. cbn [truthy].
  by rewrite (glue_rrsets_first_success _ _ _ _ _ _ _ _ _ Hitems HA Hwalk).
Qed.

(** ** The root loop and failures *)

Lemma lookup_servers_failed_query n target_name qtype restart
    server rest last found w :
  udp (sent w) (make_query from_text target_name qtype) server = TimedOut
  \/ udp (sent w) (make_query from_text target_name qtype) server
     = Malformed ->
  lookup_servers from_text (lookup_iter from_text udp (S n) target_name qtype)
    restart qtype (server :: rest) last found w
  = lookup_servers from_text
      (lookup_iter from_text udp (S n) target_name qtype)
      restart qtype rest (Some empty_message) false
      (log_sent (mkSent (make_query from_text target_name qtype) server) w).
Proof.
  intros H. cbn [lookup_servers]. unfold bind at 1.
  by rewrite (walk_failed_query _ _ _ _ _ _ H).
Qed.

(** X5: a root server whose query times out or fails with a DNS
    exception is skipped: the root loop goes on with the remaining
    servers, holding the empty Response as the last one obtained and
    found = False, whatever they were before. *)
Theorem failed_root_server_is_skipped n target_name qtype restart
    server rest last found w :
  udp (sent w) (make_query from_text target_name qtype) server = TimedOut
  \/ udp (sent w) (make_query from_text target_name qtype) server
     = Malformed ->
  lookup_servers from_text (lookup_iter from_text udp (S n) target_name qtype)
    restart qtype (server :: rest) last found w
  = lookup_servers from_text
      (lookup_iter from_text udp (S n) target_name qtype)
      restart qtype rest (Some empty_message) false
      (log_sent (mkSent (make_query from_text target_name qtype) server) w).
Proof. apply lookup_servers_failed_query. Qed.

(** X6: a lookup never touches the name cache and never asks for
    anything but its own query type and type A: the world it leaves is
    the world it found with further queries sent, each of type [qtype]
    or A. *)
Theorem lookup_sends_own_type_or_A fuel target_name qtype w :
  extends (qtype_or_A qtype) w
    (snd (lookup from_text udp fuel target_name qtype w)).
Proof. apply (proj2 (sends_of_walk_and_lookup from_text udp fuel)). Qed.


End WalkerFacts.

(** ** The cache and the resolution *)

Lemma cache_blind_ret {T} (v : T) : cache_blind (ret v).
Proof. by intros d w. Qed.

Lemma cache_blind_raise {T} e : cache_blind (@raise T e).
Proof. by intros d w. Qed.

Lemma cache_blind_out_of_fuel {T} : cache_blind (@out_of_fuel T).
Proof. by intros d w. Qed.

Lemma cache_blind_index0 {T} (l : list T) : cache_blind (index0 l).
Proof. by destruct l. Qed.

Lemma cache_blind_bind {T U} (m : M T) (k : T -> M U) :
  cache_blind m -> (forall v, cache_blind (k v)) -> cache_blind (bind m k).
Proof.
  intros Hm Hk d w. unfold bind. rewrite Hm.
  destruct (m w) as [[v | e |] w1]; simpl; [apply Hk | done | done].
Qed.

Lemma cache_blind_try_except {T} (body h1 h2 : M T) :
  cache_blind body -> cache_blind h1 -> cache_blind h2 ->
  cache_blind (try_except body h1 h2).
Proof.
  intros Hb H1 H2 d w. unfold try_except. rewrite Hb.
  destruct (body w) as [[v | [] |] w1]; simpl; done.
Qed.

#[local] Hint Resolve cache_blind_ret cache_blind_raise
  cache_blind_out_of_fuel cache_blind_index0 : sends.

Section CacheFacts.

Variable from_text : string -> Name.
Variable udp : list Sent -> Query -> string -> Outcome.

Lemma cache_blind_query_udp q server : cache_blind (query_udp udp q server).
Proof.
  intros d w. unfold query_udp. simpl.
  by destruct (udp (sent w) q server).
Qed.

Section LoopCache.

Variable walk : string -> bool -> M (Message * bool).
Variable sub_lookup : Target -> Z -> M Message.
Hypothesis walk_blind : forall server found, cache_blind (walk server found).
Hypothesis sub_lookup_blind : forall t qtype, cache_blind (sub_lookup t qtype).

Lemma cache_blind_glue_rdatas add response found :
  cache_blind (glue_rdatas walk add response found).
Proof.
  revert response found.
  induction add as [| addx rest IH]; intros response found; simpl.
  - auto with sends.
  - apply cache_blind_bind.
    + destruct (_ =? _); auto with sends.
    + intros [r [|]]; auto with sends.
Qed.

Lemma cache_blind_glue_rrsets adds response found :
  cache_blind (glue_rrsets walk adds response found).
Proof.
  revert response found.
  induction adds as [| add rest IH]; intros response found; simpl.
  - auto with sends.
  - apply cache_blind_bind; [apply cache_blind_glue_rdatas |].
    intros [r [|]]; auto with sends.
Qed.

Lemma cache_blind_auth_rdatas auth response found :
  cache_blind (auth_rdatas walk sub_lookup auth response found).
Proof.
  revert response found.
  induction auth as [| authx rest IH]; intros response found; simpl.
  - auto with sends.
  - destruct (_ =? rdatatype.NS).
    + apply cache_blind_bind; [apply sub_lookup_blind |]. intros ns.
      apply cache_blind_bind; [auto with sends |]. intros ns_set.
      apply cache_blind_bind; [auto with sends |]. intros ns_rd.
      apply cache_blind_bind; [apply walk_blind |].
      intros [r f]. apply IH.
    + destruct (_ =? rdatatype.SOA); auto with sends.
Qed.

Lemma cache_blind_auth_rrsets auths response found :
  cache_blind (auth_rrsets walk sub_lookup auths response found).
Proof.
  revert response found.
  induction auths as [| auth rest IH]; intros response found; simpl.
  - auto with sends.
  - apply cache_blind_bind; [apply cache_blind_auth_rdatas |].
    intros [r [|]]; auto with sends.
Qed.

Lemma cache_blind_lookup_iter_body target_name qtype server found :
  cache_blind (lookup_iter_body from_text udp walk sub_lookup
                 target_name qtype server found).
Proof.
  unfold lookup_iter_body.
  apply cache_blind_try_except; auto with sends.
  apply cache_blind_bind; [apply cache_blind_query_udp |].
  intros m. destruct (negb _); [auto with sends |].
  destruct (truthy (answer m)); [auto with sends |].
  destruct (truthy (additional m)); [apply cache_blind_glue_rrsets |].
  destruct (_ && _); [apply cache_blind_auth_rrsets | auto with sends].
Qed.

Lemma cache_blind_lookup_servers qtype servers response found :
  cache_blind (lookup_servers from_text walk sub_lookup qtype servers
                 response found).
Proof.
  revert response found.
  induction servers as [| server rest IH]; intros response found; simpl.
  - destruct response; auto with sends.
  - apply cache_blind_bind; [apply walk_blind |].
    intros [r f]. destruct (answer r) as [| top tl].
    + destruct (authority r) as [| auth0 ?]; [apply IH |].
      destruct (_ =? _); [auto with sends | apply IH].
    + destruct (_ && _); [| auto with sends].
      apply cache_blind_bind; [auto with sends |]. intros rd.
      apply sub_lookup_blind.
Qed.

End LoopCache.

Lemma cache_blind_walk_and_lookup fuel :
  (forall target_name qtype server found,
      cache_blind (lookup_iter from_text udp fuel target_name qtype server
                     found))
  /\ (forall target_name qtype,
        cache_blind (lookup from_text udp fuel target_name qtype)).
Proof.
  induction fuel as [| n [IHwalk IHlookup]]; split; intros;
    try (by apply cache_blind_out_of_fuel).
  - rewrite lookup_iter_S. apply cache_blind_lookup_iter_body; auto.
  - rewrite lookup_S. apply cache_blind_lookup_servers; auto.
Qed.

(** X8: the cache plays no part in a lookup. Whatever the cache object
    holds, a lookup returns the same result and sends the same queries,
    and it leaves the cache object as it found it: only [main] reads the
    cache and only the collector writes it. *)
Theorem lookup_ignores_cache fuel target_name qtype d w :
  lookup from_text udp fuel target_name qtype (recache d w)
  = (fst (lookup from_text udp fuel target_name qtype w),
     recache d (snd (lookup from_text udp fuel target_name qtype w))).
Proof. apply (proj2 (cache_blind_walk_and_lookup fuel)). Qed.

End CacheFacts.

(** ** The collector on names that cannot be resolved *)

Section CollectorFacts.

Variable from_text : string -> Name.
Variable udp : list Sent -> Query -> string -> Outcome.






(** ** The lists of the Record Map *)

Lemma collect_mx_rdatas_typed mx_name items mxrecords w :
  Forall (fun rd => rdata_rdtype rd = rdatatype.MX ->
                    exists p e, rd = RD_MX p e) items ->
  collect_mx_rdatas mx_name items mxrecords w
  = (Ok (mxrecords
         ++ flat_map (fun rd => match rd with
                                | RD_MX p e => [mx_entry mx_name p e]
                                | _ => []
                                end) items)%list, w).
Proof.
  intros Htyped. revert mxrecords.
  induction Htyped as [| rd rest Hrd _ IH]; intros mxrecords; simpl.
  - by rewrite app_nil_r.
  - destruct (Z.eqb_spec (rdata_rdtype rd) 15) as [E | E].
    + destruct (Hrd E) as (p & e & ->). simpl. unfold bind, ret.
      rewrite IH. by rewrite <- app_assoc.
    + rewrite IH. by destruct rd.
Qed.

(** X11: on an answer section whose records of type MX are MX rdata, as
    every parsed message is, the MX loop of the collector cannot fail:
    it appends, in order, one entry per MX record, with the owner name
    of its RRset, and skips every other record. *)
Theorem collect_mx_on_typed_records answers mxrecords w :
  typed_mx answers ->
  collect_mx answers mxrecords w
  = (Ok (mxrecords ++ mx_entries answers)%list, w).
Proof.
  intros Htyped. revert mxrecords.
  induction Htyped as [| rs rest Hrs _ IH]; intros mxrecords; simpl.
  - unfold ret. by rewrite app_nil_r.
  - unfold bind. rewrite collect_mx_rdatas_typed by done.
    rewrite IH. by rewrite <- app_assoc.
Qed.


End CollectorFacts.

(** ** Printing *)

(** ** Printing *)

Lemma str_app_assoc (a b c : string) : (a ++ b) ++ c = a ++ b ++ c.
Proof.
  induction a as [| x a IH]; [done |].
  change (String x ((a ++ b) ++ c) = String x (a ++ b ++ c)). by rewrite IH.
Qed.

Lemma str_app_nil_r (a : string) : a ++ "" = a.
Proof.
  induction a as [| x a IH]; [done |].
  change (String x (a ++ "") = String x a). by rewrite IH.
Qed.

Lemma prepend_str_cons c t r :
  prepend c (prepend_str t r) = prepend_str (String c t) r.
Proof. by destruct r. Qed.

Lemma prepend_str_app t1 t2 r :
  prepend_str t1 (prepend_str t2 r) = prepend_str (t1 ++ t2) r.
Proof. destruct r; cbn [prepend_str]; [| done]. by rewrite str_app_assoc. Qed.

Lemma prepend_str_nil r : prepend_str "" r = r.
Proof. by destruct r. Qed.

(** Literal text is copied. *)
Lemma format_literal text rest kwargs :
  all_chars literal_char text = true ->
  str_format (text ++ rest) None kwargs
  = prepend_str text (str_format rest None kwargs).
Proof.
  induction text as [| c text IH]; intros Hlit.
  - by rewrite prepend_str_nil.
  - cbn [all_chars] in Hlit. apply andb_prop in Hlit as [Hc Htext].
    unfold literal_char in Hc. apply andb_prop in Hc as [Hopen Hclose].
    apply negb_true_iff in Hopen, Hclose.
    change (String c text ++ rest) with (String c (text ++ rest)).
    cbn [str_format]. rewrite Hopen, Hclose, IH by done.
    apply prepend_str_cons.
Qed.

(** A field name is read up to the closing brace and looked up. *)
Lemma format_field name acc rest kwargs :
  all_chars field_char name = true ->
  str_format (name ++ String "}" rest) (Some acc) kwargs
  = if plain_field (acc ++ name) then
      match kwargs !! (acc ++ name) with
      | Some v => prepend_str (pyval_str v) (str_format rest None kwargs)
      | None => FormatRaise (KeyError (acc ++ name))
      end
    else FormatRaise Unsupported.
Proof.
  revert acc. induction name as [| c name IH]; intros acc Hname.
  - rewrite str_app_nil_r. by cbn [String.append str_format Ascii.eqb].
  - cbn [all_chars] in Hname. apply andb_prop in Hname as [Hc Hname].
    unfold field_char in Hc. apply andb_prop in Hc as [Hclose Hspecial].
    apply negb_true_iff in Hclose, Hspecial.
    change (String c name ++ String "}" rest)
      with (String c (name ++ String "}" rest)).
    cbn [str_format]. rewrite Hclose, Hspecial, IH by done.
    by rewrite str_app_assoc.
Qed.

(** An opening brace not followed by another one starts a field. *)
Lemma format_open c rest kwargs :
  Ascii.eqb c "{" = false ->
  str_format (String "{" (String c rest)) None kwargs
  = str_format (String c rest) (Some "") kwargs.
Proof.
  intros Hc.
  destruct c as [[] [] [] [] [] [] [] []]; try discriminate Hc; reflexivity.
Qed.

Lemma format_template segs kwargs :
  forallb plain_segment segs = true ->
  str_format (template segs) None kwargs = render segs kwargs.
Proof.
  induction segs as [| [text | name] segs IH]; intros Hsegs; [done | |];
    cbn [forallb] in Hsegs; apply andb_prop in Hsegs as [Hseg Hsegs].
  - cbn [template render]. rewrite format_literal by done. by rewrite IH.
  - cbn [plain_segment] in Hseg. apply andb_prop in Hseg as [Hplain Hname].
    cbn [template render].
    destruct name as [| c name]; [done |].
    assert (Hc : Ascii.eqb c "{" = false).
    { cbn [all_chars] in Hname. apply andb_prop in Hname as [Hc _].
      unfold field_char in Hc. apply andb_prop in Hc as [_ Hc].
      apply negb_true_iff in Hc. unfold special_in_field in Hc.
      by repeat (apply orb_false_elim in Hc as [? Hc]). }
    change ("{" ++ String c name ++ "}" ++ template segs)
      with (String "{" (String c (name ++ String "}" (template segs)))).
    rewrite format_open by done.
    change (String c (name ++ String "}" (template segs)))
      with (String c name ++ String "}" (template segs)).
    rewrite format_field by done.
    change ("" ++ String c name) with (String c name).
    by rewrite Hplain, IH.
Qed.

(** X13: [str.format] on a template of literal text and plain keyword
    fields replaces each field by the text of the entry's value for it,
    and raises [KeyError] for the first field the entry lacks; fields of
    the entry that the template does not name are ignored. *)
Theorem str_format_renders_template segs kwargs :
  forallb plain_segment segs = true ->
  str_format (template segs) None kwargs = render segs kwargs.
Proof. apply format_template. Qed.

Lemma has_fields_cons key keys (e : Entry) :
  has_fields (key :: keys) e <-> is_Some (e !! key) /\ has_fields keys e.
Proof.
  unfold has_fields.
  apply (Forall_cons (fun key => is_Some (e !! key))).
Qed.

Ltac use_fields H :=
  repeat (let v := fresh "v" in
          let E := fresh "E" in
          apply has_fields_cons in H; destruct H as [[v E] H]).

Lemma format_cname_line (e : Entry) :
  has_fields ["alias"; "name"] e ->
  str_format "{alias} is an alias for {name}" None e = Text (cname_line e).
Proof.
  intros H. use_fields H.
  change "{alias} is an alias for {name}"
    with (template [Field "alias"; Lit " is an alias for "; Field "name"]).
  rewrite format_template by reflexivity.
  unfold cname_line, field. cbn [render].
  repeat match goal with E : _ !! _ = Some _ |- _ => rewrite E; clear E end.
  cbn [prepend_str]. by rewrite str_app_nil_r.
Qed.

Lemma format_a_line (e : Entry) :
  has_fields ["name"; "address"] e ->
  str_format "{name} has address {address}" None e = Text (a_line e).
Proof.
  intros H. use_fields H.
  change "{name} has address {address}"
    with (template [Field "name"; Lit " has address "; Field "address"]).
  rewrite format_template by reflexivity.
  unfold a_line, field. cbn [render].
  repeat match goal with E : _ !! _ = Some _ |- _ => rewrite E; clear E end.
  cbn [prepend_str]. by rewrite str_app_nil_r.
Qed.

Lemma format_aaaa_line (e : Entry) :
  has_fields ["name"; "address"] e ->
  str_format "{name} has IPv6 address {address}" None e = Text (aaaa_line e).
Proof.
  intros H. use_fields H.
  change "{name} has IPv6 address {address}"
    with (template [Field "name"; Lit " has IPv6 address "; Field "address"]).
  rewrite format_template by reflexivity.
  unfold aaaa_line, field. cbn [render].
  repeat match goal with E : _ !! _ = Some _ |- _ => rewrite E; clear E end.
  cbn [prepend_str]. by rewrite str_app_nil_r.
Qed.

Lemma format_mx_line (e : Entry) :
  has_fields ["name"; "preference"; "exchange"] e ->
  str_format "{name} mail is handled by {preference} {exchange}" None e
  = Text (mx_line e).
Proof.
  intros H. use_fields H.
  change "{name} mail is handled by {preference} {exchange}"
    with (template [Field "name"; Lit " mail is handled by ";
                    Field "preference"; Lit " "; Field "exchange"]).
  rewrite format_template by reflexivity.
  unfold mx_line, field. cbn [render].
  repeat match goal with E : _ !! _ = Some _ |- _ => rewrite E; clear E end.
  cbn [prepend_str]. by rewrite str_app_nil_r.
Qed.

Lemma print_entries_lines fmt_str (line : Entry -> string) results out :
  Forall (fun e => str_format fmt_str None e = Text (line e)) results ->
  print_entries fmt_str results out = ((out ++ map line results)%list, None).
Proof.
  intros H. revert out.
  induction H as [| e rest He _ IH]; intros out; simpl.
  - by rewrite app_nil_r.
  - rewrite He, IH. by rewrite <- app_assoc.
Qed.

Lemma print_results_printable (results : RecordMap) :
  printable results -> print_results results = (lines_of results, None).
Proof.
  intros (Hcn & Ha & Haaaa & Hmx).
  unfold print_results, FORMATS, lines_of. cbn [print_formats].
  fold (records_of results "CNAME"). fold (records_of results "A").
  fold (records_of results "AAAA"). fold (records_of results "MX").
  rewrite (print_entries_lines _ cname_line)
    by (eapply Forall_impl; [exact Hcn | apply format_cname_line]).
  rewrite (print_entries_lines _ a_line)
    by (eapply Forall_impl; [exact Ha | apply format_a_line]).
  rewrite (print_entries_lines _ aaaa_line)
    by (eapply Forall_impl; [exact Haaaa | apply format_aaaa_line]).
  rewrite (print_entries_lines _ mx_line)
    by (eapply Forall_impl; [exact Hmx | apply format_mx_line]).
  by rewrite <- !app_assoc.
Qed.

(** X14: on a Record Map whose entries have the fields of their lines,
    [print_results] raises nothing and prints one line per entry: the
    CNAME lines first, then the A lines, the AAAA lines and the MX
    lines, each list in its own order. A key that is absent counts as an
    empty list. *)
Theorem print_results_prints_every_entry (results : RecordMap) :
  printable results ->
  print_results results = (lines_of results, None)
  /\ length (lines_of results)
     = (length (records_of results "CNAME") + length (records_of results "A")
        + length (records_of results "AAAA")
        + length (records_of results "MX"))%nat.
Proof.
  intros H. split; [by apply print_results_printable |].
  unfold lines_of. rewrite !length_app, !length_map. lia.
Qed.

(** X15: [print_results] reads the keys CNAME, A, AAAA and MX and
    nothing else: two mappings that agree on these four keys print the
    same lines and fail the same way. *)
Theorem print_results_reads_four_keys (results results' : RecordMap) :
  (forall rtype, In rtype ["CNAME"; "A"; "AAAA"; "MX"] ->
                 results !! rtype = results' !! rtype) ->
  print_results results = print_results results'.
Proof.
  intros H. unfold print_results, FORMATS. cbn [print_formats].
  rewrite (H "CNAME"), (H "A"), (H "AAAA"), (H "MX"); simpl; auto 10.
Qed.

(** X16: printing a list stops at the first entry that fails to format:
    the entries before it are printed, the exception is the one that
    entry raised, and no later entry is printed. *)
Theorem print_entries_stops_at_failure fmt_str (line : Entry -> string)
    good bad rest err out :
  Forall (fun e => str_format fmt_str None e = Text (line e)) good ->
  str_format fmt_str None bad = FormatRaise err ->
  print_entries fmt_str (good ++ bad :: rest) out
  = ((out ++ map line good)%list, Some err).
Proof.
  intros Hgood Hbad. revert out.
  induction Hgood as [| e good He _ IH]; intros out; simpl.
  - by rewrite Hbad, app_nil_r.
  - rewrite He, IH. by rewrite <- app_assoc.
Qed.

(** ** What [main] hands to [print_results] *)

Lemma cname_shape_fields name (e : Entry) :
  cname_shape name e -> has_fields ["alias"; "name"] e.
Proof.
  intros (_ & [rd Hname] & Halias).
  repeat (apply has_fields_cons; split); [by eexists | by eexists |].
  constructor.
Qed.

Lemma address_shape_fields (e : Entry) :
  address_shape e -> has_fields ["name"; "address"] e.
Proof.
  intros (_ & [n Hname] & [a Haddress]).
  repeat (apply has_fields_cons; split); [by eexists | by eexists |].
  constructor.
Qed.

Lemma mx_shape_fields (e : Entry) :
  mx_shape e -> has_fields ["name"; "preference"; "exchange"] e.
Proof.
  intros (_ & [n Hname] & [p Hpreference] & [x Hexchange]).
  repeat (apply has_fields_cons; split);
    [by eexists | by eexists | by eexists |].
  constructor.
Qed.

Section MainFacts.

Variable from_text : string -> Name.
Variable udp : list Sent -> Query -> string -> Outcome.

Lemma collect_results_printable fuel name w rm w' :
  collect_results from_text udp fuel name w = (Ok rm, w') -> printable rm.
Proof.
  intros H. apply collect_results_spec in H.
  destruct H as (cn & a & aaaa & mx & new & -> & Hcn & Ha & Haaaa & Hmx & _).
  unfold printable, records_of.
  rewrite lookup_insert_eq.
  rewrite !(lookup_insert_ne _ "MX") by done. rewrite lookup_insert_eq.
  rewrite !(lookup_insert_ne _ "AAAA") by done. rewrite lookup_insert_eq.
  rewrite !(lookup_insert_ne _ "A") by done. rewrite lookup_insert_eq.
  simpl. repeat split.
  - eapply Forall_impl; [exact Hcn | apply cname_shape_fields].
  - eapply Forall_impl; [exact Ha | apply address_shape_fields].
  - eapply Forall_impl; [exact Haaaa | apply address_shape_fields].
  - eapply Forall_impl; [exact Hmx | apply mx_shape_fields].
Qed.

Lemma main_step_printable fuel name w res w' :
  cache_printable w ->
  main_step from_text udp fuel name w = (res, w') ->
  cache_printable w' /\ (forall rm, res = Ok rm -> printable rm).
Proof.
  intros Hinv H. unfold main_step in H.
  assert (Hmiss : collect_results from_text udp fuel name w = (res, w') ->
            cache_printable w' /\ (forall rm, res = Ok rm -> printable rm)).
  { intros Hc. pose proof (collect_results_cache _ _ _ _ _ _ _ Hc) as Hcache.
    destruct res as [rm | e |].
    - destruct Hcache as [Hcache Htruthy].
      pose proof (collect_results_printable _ _ _ _ _ Hc) as Hprint.
      split; [| by intros rm' [= <-]].
      intros k rm'. rewrite Hcache.
      destruct (decide (name = k)) as [<- | Hne].
      + rewrite lookup_insert_eq. by intros [= <-].
      + rewrite lookup_insert_ne by done. apply Hinv.
    - split; [| done]. intros k rm'. rewrite Hcache. apply Hinv.
    - split; [| done]. intros k rm'. rewrite Hcache. apply Hinv. }
  destruct (cache w !! name) as [c |] eqn:Ec; [| by apply Hmiss].
  destruct (Hinv _ _ Ec) as [Htruthy Hprint].
  rewrite Htruthy in H. injection H as <- <-.
  split; [done |]. by intros rm [= <-].
Qed.

(** X17: every Record Map that [main] hands to [print_results], whether
    it comes from the collector or from the cache, is printed completely
    and without exception, provided the cache held only such maps to
    begin with, as the empty cache does. *)
Theorem main_prints_without_error fuel names w printed w' :
  cache_printable w ->
  main_loop from_text udp fuel names w = (Ok printed, w') ->
  Forall (fun rm => print_results rm = (lines_of rm, None)) printed.
Proof.
  revert w printed w'.
  induction names as [| name rest IH]; intros w printed w' Hinv; simpl.
  - intros [= <- <-]. constructor.
  - unfold bind at 1.
    destruct (main_step _ _ _ _ w) as [r1 w1] eqn:E1.
    destruct (main_step_printable _ _ _ _ _ Hinv E1) as (Hinv1 & Hprint).
    destruct r1 as [rm | e |]; try done.
    unfold bind at 1.
    destruct (main_loop _ _ _ _ w1) as [[others | e |] w2] eqn:E2; try done.
    intros [= <- <-]. constructor.
    + apply print_results_printable. by apply Hprint.
    + by eapply IH.
Qed.

End MainFacts.

(** ** A referral followed through its nameserver *)

Section ReferralFacts.

Variable from_text : string -> Name.
Variable udp : list Sent -> Query -> string -> Outcome.

(** X18: a referral without glue is followed through its nameserver.
    When a NOERROR reply without answer and glue has a single NS record
    in its authority section, the walker looks up the A records of that
    nameserver from the root, and its result is the result of the walk
    against the first address of the first RRset that lookup returns. *)
Theorem referral_is_followed_through_nameserver
    n target_name qtype server w m auth0 authx ns_response w1 ns_set ns_tl
    ns_rd ns_rest r found w2 :
  udp (sent w) (make_query from_text target_name qtype) server
    = Received m ->
  msg_rcode m = rcode.NOERROR ->
  answer m = [] ->
  additional m = [] ->
  authority m = [auth0] ->
  rr_items auth0 = [authx] ->
  rdata_rdtype authx = rdatatype.NS ->
  lookup from_text udp n (TStr (rdata_str authx)) rdatatype.A
    (log_sent (mkSent (make_query from_text target_name qtype) server) w)
  = (Ok ns_response, w1) ->
  answer ns_response = ns_set :: ns_tl ->
  rr_items ns_set = ns_rd :: ns_rest ->
  lookup_iter from_text udp n target_name qtype (rdata_str ns_rd) false w1
  = (Ok (r, found), w2) ->
  lookup_iter from_text udp (S n) target_name qtype server false w
  = (Ok (r, found), w2).
Proof.
  intros Hm Hrc Hans Hadd Hauth Hitems Hns Hsub Hset Hrd Hwalk.
  rewrite (walk_received _ _ _ _ _ _ _ _ _ Hm Hrc).
  unfold try_except. rewrite Hans, Hadd, Hauth. cbn [truthy andb negb].
  cbn [auth_rrsets]. rewrite Hitems. cbn [auth_rdatas].
  apply Z.eqb_eq in Hns. rewrite Hns.
  unfold bind. rewrite Hsub, Hset. cbn [index0]. unfold ret.
  rewrite Hrd. cbn [index0]. unfold ret. rewrite Hwalk. by destruct found.
Qed.

End ReferralFacts.

(** ** Instances of the further properties *)

Lemma walk_answer_is_terminal_witness :
  lookup_iter absolute net_alias 1 www rdatatype.A root0 true initial_world
  = (Ok (mkMessage 0 [alias_rrset] [] [], true),
     log_sent (mkSent (make_query absolute www rdatatype.A) root0)
       initial_world).
Proof.
  refine (walk_answer_is_terminal absolute net_alias 0 www rdatatype.A root0
            true initial_world (mkMessage 0 [alias_rrset] [] [])
            eq_refl eq_refl _).
  discriminate.
Defined.

Lemma soa_reply_is_negative_witness :
  lookup_iter absolute net_soa 1 www rdatatype.MX "198.41.0.4" false
    initial_world
  = (Ok (mkMessage 0 [] [soa_rrset "example."] [], true),
     log_sent (mkSent (make_query absolute www rdatatype.MX) "198.41.0.4")
       initial_world)
  /\ lookup absolute net_soa 2 www rdatatype.MX initial_world
     = (Ok (mkMessage 0 [] [soa_rrset "example."] []),
        log_sent (mkSent (make_query absolute www rdatatype.MX) "198.41.0.4")
          initial_world).
Proof.
  refine (soa_reply_is_negative absolute net_soa 0 www rdatatype.MX
            initial_world (mkMessage 0 [] [soa_rrset "example."] [])
            (soa_rrset "example.") []
            (RD_SOA "ns.example. admin.example. 1 7200 900 1209600 86400") []
            eq_refl eq_refl eq_refl eq_refl eq_refl eq_refl eq_refl eq_refl).
Defined.

Lemma walk_without_leads_witness :
  lookup_iter absolute net_lame 1 www rdatatype.A root0 true initial_world
  = (Ok (mkMessage 0 []
           [mkRRset (mkName "example.") rdatatype.NS
              [RD_NS (mkName "ns1.example.")]] [], true),
     log_sent (mkSent (make_query absolute www rdatatype.A) root0)
       initial_world).
Proof.
  refine (walk_without_leads absolute net_lame 0 www rdatatype.A root0 true
            initial_world _ eq_refl eq_refl eq_refl eq_refl _).
  right. reflexivity.
Defined.

Lemma first_glue_success_ends_walk_witness :
  lookup_iter absolute
    (net_referral [a_rrset "ns1.example." "192.0.2.1";
                   a_rrset "ns2.example." "192.0.2.2"])
    2 www rdatatype.A root0 false initial_world
  = (Ok (mkMessage 0 [a_rrset "www.example." "192.0.2.80"] [] [], true),
     asked_all "www.example." rdatatype.A [root0; "192.0.2.1"] initial_world).
Proof.
  refine (first_glue_success_ends_walk absolute (net_referral _) 1 www
            rdatatype.A root0 initial_world _
            (a_rrset "ns1.example." "192.0.2.1")
            [a_rrset "ns2.example." "192.0.2.2"] (RD_A "192.0.2.1") [] _ _
            eq_refl eq_refl eq_refl eq_refl eq_refl eq_refl eq_refl).
Defined.

Lemma failed_root_server_is_skipped_witness :
  lookup_servers absolute (lookup_iter absolute net_nodata 1 www rdatatype.A)
    (lookup absolute net_nodata 1) rdatatype.A [root0; root1] None true
    initial_world
  = lookup_servers absolute
      (lookup_iter absolute net_nodata 1 www rdatatype.A)
      (lookup absolute net_nodata 1) rdatatype.A [root1]
      (Some empty_message) false
      (log_sent (mkSent (make_query absolute www rdatatype.A) root0)
         initial_world).
Proof.
  apply (failed_root_server_is_skipped absolute net_nodata 0 www rdatatype.A).
  left. reflexivity.
Defined.




Lemma collect_mx_on_typed_records_witness :
  let answers :=
    [ mkRRset (mkName "example.com.") rdatatype.CNAME
        [RD_CNAME (mkName "mx.example.")];
      mkRRset (mkName "mx.example.") rdatatype.MX
        [RD_MX 10 (mkName "mail1.example.");
         RD_MX 20 (mkName "mail2.example.")] ] in
  collect_mx answers [] initial_world
  = (Ok ([] ++ mx_entries answers)%list, initial_world).
Proof.
  intros answers.
  apply (collect_mx_on_typed_records answers [] initial_world).
  repeat constructor; intros H; try discriminate H; by eexists _, _.
Defined.

Lemma str_format_renders_template_witness :
  let segs := [Field "name"; Lit " has address "; Field "address"] in
  let kwargs := address_entry (mkName "example.com.") (RD_A "192.0.2.1") in
  str_format (template segs) None kwargs = render segs kwargs.
Proof.
  intros segs kwargs.
  apply (str_format_renders_template segs kwargs). reflexivity.
Defined.

Lemma initial_world_printable : cache_printable initial_world.
Proof. intros k rm H. simpl in H. by rewrite lookup_empty in H. Qed.

Lemma example_com_records_printable : printable example_com_records.
Proof.
  apply (collect_results_printable absolute net_direct 2 "example.com"
           initial_world example_com_records example_com_world).
  vm_compute. reflexivity.
Qed.

Lemma print_results_prints_every_entry_witness :
  print_results example_com_records
  = (lines_of example_com_records, None)
  /\ length (lines_of example_com_records)
     = (length (records_of example_com_records "CNAME")
        + length (records_of example_com_records "A")
        + length (records_of example_com_records "AAAA")
        + length (records_of example_com_records "MX"))%nat.
Proof.
  apply (print_results_prints_every_entry example_com_records).
  apply example_com_records_printable.
Defined.

Lemma print_results_reads_four_keys_witness :
  print_results (<["NS" := [∅]]> example_com_records)
  = print_results example_com_records.
Proof.
  apply (print_results_reads_four_keys
           (<["NS" := [∅]]> example_com_records) example_com_records).
  intros rtype [<- | [<- | [<- | [<- | []]]]]; vm_compute; reflexivity.
Defined.

Lemma print_entries_stops_at_failure_witness :
  let good := address_entry (mkName "a.example.") (RD_A "192.0.2.1") in
  let bad : Entry := <["name" := VName (mkName "b.example.")]> ∅ in
  let later := address_entry (mkName "c.example.") (RD_A "192.0.2.3") in
  print_entries "{name} has address {address}" ([good] ++ bad :: [later]) []
  = (([] ++ map a_line [good])%list, Some (KeyError "address")).
Proof.
  intros good bad later.
  apply (print_entries_stops_at_failure "{name} has address {address}"
           a_line [good] bad [later] (KeyError "address") []).
  - constructor; [vm_compute; reflexivity | constructor].
  - vm_compute. reflexivity.
Defined.

Lemma main_prints_without_error_witness :
  Forall (fun rm => print_results rm = (lines_of rm, None))
         [example_com_records; example_com_records].
Proof.
  apply (main_prints_without_error absolute net_direct 2
           ["example.com"; "example.com"] initial_world
           [example_com_records; example_com_records] example_com_world).
  - apply initial_world_printable.
  - vm_compute. reflexivity.
Defined.

Lemma referral_is_followed_through_nameserver_witness :
  lookup_iter absolute (net_referral []) 3 www rdatatype.A root0 false
    initial_world
  = (Ok (mkMessage 0 [a_rrset "www.example." "192.0.2.80"] [] [], true),
     log_sent (mkSent (make_query absolute www rdatatype.A) "192.0.2.1")
       (log_sent (mkSent (mkQuery (mkName "ns1.example.") rdatatype.A) root0)
          (log_sent (mkSent (make_query absolute www rdatatype.A) root0)
             initial_world))).
Proof.
  refine (referral_is_followed_through_nameserver absolute (net_referral [])
            2 www rdatatype.A root0 initial_world _
            (mkRRset (mkName "example.") rdatatype.NS
               [RD_NS (mkName "ns1.example.")])
            (RD_NS (mkName "ns1.example."))
            (mkMessage 0 [a_rrset "ns1.example." "192.0.2.1"] [] []) _
            (a_rrset "ns1.example." "192.0.2.1") [] (RD_A "192.0.2.1") []
            _ _ _
            eq_refl eq_refl eq_refl eq_refl eq_refl eq_refl eq_refl eq_refl
            eq_refl eq_refl eq_refl).
Defined.
